(** * Batch text-rewriting scripts of kluth/synapse: a shallow embedding

    The five scripts (comprehensive_fix.py, final_push.py, final_safe_fix.py,
    fix_ts_errors.py, ultra_targeted_fix.py) read test files, push their text
    through a fixed sequence of [re.sub] calls and write the file back when
    the text changed.  This development embeds

    - the fragment of Python's [re] language that the scripts use, as a
      backtracking matcher with the priorities of the [sre] engine
      (greedy repetition, ordered alternation, capture groups,
      back-references, [\b]), together with [re.sub] and [re.match];
    - the transformation function of every script, rule by rule;
    - the per-file driver ([process_file] / [fix_file]) and [main] over an
      explicit model of the file system and of standard output.

    Text is modelled over the 8-bit characters of [ascii]; the classes
    [\w], [\d], [\s] are Python's on the ASCII range, and no character
    above 127 belongs to them. *)

From Stdlib Require Import Ascii String List Bool Arith Lia DecimalString.
From stdpp Require Import gmap strings list fin_maps.

Local Open Scope list_scope.

(** ** Text *)

Definition text := list ascii.

Definition txt (s : string) : text := list_ascii_of_string s.

(** The line feed, written [\n] in the Python sources. *)
Definition LF : ascii := ascii_of_nat 10.

Definition nl : text := [LF].

Definition text_eqb (a b : text) : bool :=
  bool_decide (a = b).

(** ** Character classes *)

Definition cclass := ascii -> bool.

Definition between (lo hi : nat) (a : ascii) : bool :=
  (lo <=? nat_of_ascii a) && (nat_of_ascii a <=? hi).

Definition is_char (c : ascii) : cclass := fun a => Ascii.eqb a c.

(** [[^c]] *)
Definition not_char (c : ascii) : cclass := fun a => negb (Ascii.eqb a c).

(** [[^cd]] *)
Definition not_chars (c d : ascii) : cclass :=
  fun a => negb (Ascii.eqb a c) && negb (Ascii.eqb a d).

(** [\d] *)
Definition is_digit : cclass := between 48 57.

(** [\w]: letters, digits and the underscore. *)
Definition is_word : cclass :=
  fun a => is_digit a || between 65 90 a || between 97 122 a || is_char "_" a.

(** [\s], which is also what [str.strip()] removes: HT, LF, VT, FF, CR, the
    four separators FS, GS, RS, US and the space. *)
Definition is_space : cclass :=
  fun a => between 9 13 a || between 28 31 a || is_char " " a.

(** ** Regular expressions *)

(** The constructs the patterns of the five scripts are made of.  Every
    repetition in them is over a single character class, so [Star] takes a
    class; [c+] and [r?] are derived below. *)
Inductive regex : Type :=
| Eps
| Chr (c : cclass)
| Seq (r1 r2 : regex)
| Alt (r1 r2 : regex)
| Star (c : cclass)
| Group (n : nat) (r : regex)
| Backref (n : nat)
| WordB.

(** [c+] *)
Definition Plus (c : cclass) : regex := Seq (Chr c) (Star c).

(** [r?] *)
Definition Opt (r : regex) : regex := Alt r Eps.

(** A literal string. *)
Definition str (s : string) : regex :=
  fold_right (fun a r => Seq (Chr (is_char a)) r) Eps (txt s).

Definition seqs (rs : list regex) : regex := fold_right Seq Eps rs.

(** Captured groups: the most recent binding of a number comes first. *)
Definition caps := list (nat * text).

Fixpoint group (n : nat) (g : caps) : option text :=
  match g with
  | [] => None
  | (m, t) :: g' => if Nat.eqb n m then Some t else group n g'
  end.

(** A match in progress is the character before the cursor (for [\b]), the
    text from the cursor on and the groups captured so far. *)
Definition cont := option ascii -> text -> caps -> option (text * caps).

Definition word_before (prev : option ascii) : bool :=
  match prev with Some a => is_word a | None => false end.

Definition word_after (s : text) : bool :=
  match s with a :: _ => is_word a | [] => false end.

Fixpoint starts_with (t s : text) : option text :=
  match t, s with
  | [], _ => Some s
  | a :: t', b :: s' => if Ascii.eqb a b then starts_with t' s' else None
  | _ :: _, [] => None
  end.

Definition last_char (t : text) (prev : option ascii) : option ascii :=
  fold_left (fun _ a => Some a) t prev.

(** The greedy loop of [c*]: take one more character when the class allows
    it, and fall back to the continuation when the rest fails. *)
Fixpoint star (c : cclass) (k : option ascii -> text -> option (text * caps))
    (prev : option ascii) (s : text) : option (text * caps) :=
  match s with
  | a :: s' =>
      if c a then
        match star c k (Some a) s' with
        | Some m => Some m
        | None => k prev s
        end
      else k prev s
  | [] => k prev s
  end.

(** The backtracking matcher: the first success in priority order. *)
Fixpoint rmatch (r : regex) (prev : option ascii) (s : text) (g : caps)
    (k : cont) : option (text * caps) :=
  match r with
  | Eps => k prev s g
  | Chr c =>
      match s with
      | a :: s' => if c a then k (Some a) s' g else None
      | [] => None
      end
  | Seq r1 r2 =>
      rmatch r1 prev s g (fun p' s' g' => rmatch r2 p' s' g' k)
  | Alt r1 r2 =>
      match rmatch r1 prev s g k with
      | Some m => Some m
      | None => rmatch r2 prev s g k
      end
  | Star c => star c (fun p' s' => k p' s' g) prev s
  | Group n r1 =>
      rmatch r1 prev s g
        (fun p' s' g' => k p' s' ((n, firstn (length s - length s') s) :: g'))
  | Backref n =>
      match group n g with
      | Some t =>
          match starts_with t s with
          | Some s' => k (last_char t prev) s' g
          | None => None
          end
      | None => None
      end
  | WordB =>
      if xorb (word_before prev) (word_after s) then k prev s g else None
  end.

(** One attempt at the cursor.  [must_advance] is the flag the engine sets
    after an empty match: the next match may not be empty at that place.
    The result is the number of characters matched and the groups. *)
Definition match_at (r : regex) (prev : option ascii) (s : text)
    (must_advance : bool) : option (nat * caps) :=
  match
    rmatch r prev s []
      (fun _ s' g =>
         if must_advance && (length s' =? length s) then None
         else Some (s', g))
  with
  | Some (s', g) => Some (length s - length s', g)
  | None => None
  end.

(** [re.match]: the pattern is tried at the start of the string only. *)
Definition re_match (r : regex) (s : text) : bool :=
  match match_at r None s false with Some _ => true | None => false end.



(** ** Replacement templates *)

Inductive tpl_item : Type :=
| TLit (t : text)
| TGroup (n : nat).

Definition template := list tpl_item.

(** A group that took no part in the match expands to the empty string. *)
Definition expand_item (g : caps) (i : tpl_item) : text :=
  match i with
  | TLit t => t
  | TGroup n => match group n g with Some t => t | None => [] end
  end.

Definition expand (tpl : template) (g : caps) : text :=
  concat (map (expand_item g) tpl).

(** ** [re.sub] *)

(** The scan of [re.sub], one character of the subject per step.  [skip]
    counts the characters of the last match that are still under the
    cursor; with [skip = 0] the pattern is tried at the cursor.  After an
    empty match the pattern is tried once more at the same place with
    [must_advance] set.  Where nothing (more) matches at the cursor, the
    character under it is copied. *)
Fixpoint sub_loop (r : regex) (tpl : template) (prev : option ascii)
    (s : text) (skip : nat) {struct s} : text :=
  let step (k : nat) : text :=
    match s with
    | a :: s' => sub_loop r tpl (Some a) s' k
    | [] => []
    end in
  match skip with
  | S k => step k
  | O =>
      match match_at r prev s false with
      | Some (S n, g) => expand tpl g ++ step n
      | Some (O, g) =>
          expand tpl g ++
          match match_at r prev s true with
          | Some (S n, g') => expand tpl g' ++ step n
          | _ => firstn 1 s ++ step 0
          end
      | None => firstn 1 s ++ step 0
      end
  end.

Definition re_sub (r : regex) (tpl : template) (s : text) : text :=
  sub_loop r tpl None s 0.

(** A rule is one [re.sub] call: a pattern and a replacement template. *)
Record rule : Type := Rule { pattern : regex; replacement : template }.

Definition apply_rule (ru : rule) (s : text) : text :=
  re_sub (pattern ru) (replacement ru) s.

(** Rules applied one after the other, each on the output of the one
    before. *)
Definition apply_rules (rs : list rule) (s : text) : text :=
  fold_left (fun c ru => apply_rule ru c) rs s.

Definition L (s : string) : tpl_item := TLit (txt s).

(** ** Lines *)

(** [s.split('\n')]: never empty, one more piece than there are line feeds. *)
Fixpoint split_lines (s : text) : list text :=
  match s with
  | [] => [[]]
  | a :: s' =>
      if Ascii.eqb a LF then [] :: split_lines s'
      else
        match split_lines s' with
        | l :: ls => (a :: l) :: ls
        | [] => [[a]]
        end
  end.

(** ['\n'.join(ls)] *)
Fixpoint join_lines (ls : list text) : text :=
  match ls with
  | [] => []
  | [l] => l
  | l :: ls' => l ++ LF :: join_lines ls'
  end.

(** [line.strip() == ''] *)
Definition is_blank (line : text) : bool := forallb is_space line.

(** ** Files, errors and standard output *)

(** The outcome of a call that may raise; [Raise msg] carries [str(e)]. *)
Inductive result (A : Type) : Type :=
| Ok (a : A)
| Raise (msg : string).

Arguments Ok {A} a.
Arguments Raise {A} msg.

(** A file: its text, and the message of the exception that opening it for
    reading (missing permission, undecodable bytes, a directory) or for
    writing raises, when it does. *)
Record file : Type := File {
  contents : text;
  read_error : option string;
  write_error : option string
}.

(** The world the scripts run in: the directories, the files by path and
    the lines printed so far (the latest first). *)
Record World : Type := mkWorld {
  dirs : gset string;
  files : gmap string file;
  stdout : list string
}.

Definition print (w : World) (line : string) : World :=
  mkWorld (dirs w) (files w) (line :: stdout w).

(** [open(filepath, 'r', encoding='utf-8')] and [f.read()] *)
Definition read_text (w : World) (filepath : string) : result text :=
  match files w !! filepath with
  | None => Raise ("[Errno 2] No such file or directory: '" +:+ filepath +:+ "'")
  | Some f =>
      match read_error f with
      | Some msg => Raise msg
      | None => Ok (contents f)
      end
  end.

(** [open(filepath, 'w', encoding='utf-8')] and [f.write(content)].  The
    scripts write only to a path they have just read; the faults of the
    file (its permissions) stay as they are. *)
Definition write_text (w : World) (filepath : string) (content : text)
    : result World :=
  match files w !! filepath with
  | None => Raise ("[Errno 2] No such file or directory: '" +:+ filepath +:+ "'")
  | Some f =>
      match write_error f with
      | Some msg => Raise msg
      | None =>
          Ok (mkWorld (dirs w)
                (<[filepath := File content (read_error f) (write_error f)]>
                   (files w))
                (stdout w))
      end
  end.

(** [Path.exists()] *)
Definition path_exists (w : World) (p : string) : bool :=
  bool_decide (p ∈ dirs w) || bool_decide (is_Some (files w !! p)).

Definition has_suffix (suffix p : string) : bool :=
  bool_decide (drop (length (txt p) - length (txt suffix)) (txt p) = txt suffix).

(** [directory.rglob('*' + suffix)]: the files below [directory] whose name
    ends in [suffix]; nothing when [directory] is not a directory. *)
Definition rglob (w : World) (directory suffix : string) : list string :=
  if bool_decide (directory ∈ dirs w) then
    List.filter
      (fun p => String.prefix (directory +:+ "/") p && has_suffix suffix p)
      (map fst (map_to_list (files w)))
  else [].

Definition string_of_nat (n : nat) : string :=
  NilEmpty.string_of_uint (Nat.to_uint n).

(** ** The per-file driver shared by four scripts *)

Module Driver.

Section WithFixes.

(** The transformation of the script, with the file path already given. *)
Variable fixes : string -> text -> text.

Definition error_line (filepath msg : string) : string :=
  "Error processing " +:+ filepath +:+ ": " +:+ msg.

(** [process_file]: the [try] block around read, transform, compare and
    write; [except Exception as e] prints and falls through to
    [return False]. *)
Definition process_file (w : World) (filepath : string) : World * bool :=
  match read_text w filepath with
  | Raise e => (print w (error_line filepath e), false)
  | Ok content =>
      let original := content in
      let content := fixes filepath content in
      if negb (text_eqb content original) then
        match write_text w filepath content with
        | Raise e => (print w (error_line filepath e), false)
        | Ok w' => (w', true)
        end
      else (w, false)
  end.

(** One [for filepath in ...] loop of [main]. *)
Fixpoint for_files (paths : list string) (w : World) (files_fixed : nat)
    : World * nat :=
  match paths with
  | [] => (w, files_fixed)
  | filepath :: rest =>
      let (w1, changed) := process_file w filepath in
      if changed then
        for_files rest (print w1 ("Fixed: " +:+ filepath)) (files_fixed + 1)
      else for_files rest w1 files_fixed
  end.

(** The loops of [main] over one directory, one per suffix. *)
Fixpoint for_suffixes (directory : string) (suffixes : list string)
    (w : World) (files_fixed : nat) : World * nat :=
  match suffixes with
  | [] => (w, files_fixed)
  | suffix :: rest =>
      let (w1, n1) := for_files (rglob w directory suffix) w files_fixed in
      for_suffixes directory rest w1 n1
  end.

Definition report (w : World) (files_fixed : nat) : World :=
  print w (String LF "Total files fixed: " +:+ string_of_nat files_fixed).

End WithFixes.

End Driver.

(** ** comprehensive_fix.py *)

Module Comprehensive.

(** The rules carry the numbers of the comments in [fix_content]; the
    fixes numbered 3 and 7 to 9 there have no code. *)

(** Rule 1: "const _\w+ = [^;]+;\n\s*\n" becomes "\n". *)
Definition rule1 : rule :=
  Rule (seqs [str "const _"; Plus is_word; str " = "; Plus (not_char ";");
              str ";"; Chr (is_char LF); Star is_space; Chr (is_char LF)])
       [TLit nl].

(** Rule 2: "(\w+)\[(\d+)\]\.(\w+)" becomes "\1[\2]?.\3". *)
Definition rule2 : rule :=
  Rule (seqs [Group 1 (Plus is_word); str "["; Group 2 (Plus is_digit);
              str "]."; Group 3 (Plus is_word)])
       [TGroup 1; L "["; TGroup 2; L "]?."; TGroup 3].

(** Rule 4: an opening parenthesis, group 1 = any run of characters other
    than the closing parenthesis, the closing parenthesis, then
    "\s*=>\s*(\w+)\+\+" with the word as group 2; it becomes
    "(\1) => {\n        \2++;\n      }". *)
Definition rule4 : rule :=
  Rule (seqs [str "("; Group 1 (Star (not_char ")")); str ")"; Star is_space;
              str "=>"; Star is_space; Group 2 (Plus is_word); str "++"])
       [L "("; TGroup 1; L ") => {"; TLit nl; L "        "; TGroup 2;
        L "++;"; TLit nl; L "      }"].

(** Rule 5: "(as\s+\{\s*props:\s*\{[^}]+\}\s*;\s*\})" becomes
    "as unknown \1". *)
Definition rule5 : rule :=
  Rule (Group 1
          (seqs [str "as"; Plus is_space; str "{"; Star is_space;
                 str "props:"; Star is_space; str "{"; Plus (not_char "}");
                 str "}"; Star is_space; str ";"; Star is_space; str "}"]))
       [L "as unknown "; TGroup 1].

(** Rule 6: "\.find\([^)]+\)\)" becomes ".find(...)!)". *)
Definition rule6 : rule :=
  Rule (seqs [str ".find("; Plus (not_char ")"); str "))"])
       [L ".find(...)!)"].

Definition rules : list rule := [rule1; rule2; rule4; rule5; rule6].

Definition fix_content (content : text) (filepath : string) : text :=
  let original := content in
  let content := apply_rule rule1 content in
  let content := apply_rule rule2 content in
  let content := apply_rule rule4 content in
  let content := apply_rule rule5 content in
  let content := apply_rule rule6 content in
  content.

Definition process_file : World -> string -> World * bool :=
  Driver.process_file (fun filepath content => fix_content content filepath).

Definition suffixes : list string := [".test.ts"; ".spec.ts"; ".stories.ts"]%string.

(** [main]: for each of [src] and [e2e] that exists, the three loops. *)
Definition main (w : World) : World :=
  let src_dir := "src"%string in
  let e2e_dir := "e2e"%string in
  let files_fixed := 0 in
  let (w1, files_fixed) :=
    fold_left
      (fun (st : World * nat) directory =>
         let (w0, n) := st in
         if path_exists w0 directory then
           Driver.for_suffixes (fun filepath content => fix_content content filepath)
             directory suffixes w0 n
         else (w0, n))
      [src_dir; e2e_dir] (w, files_fixed) in
  Driver.report w1 files_fixed.

End Comprehensive.

(** ** final_push.py *)

Module FinalPush.

(** Rule 1: "\.props\.data\b" becomes ".props['data']". *)
Definition rule1 : rule :=
  Rule (seqs [str ".props.data"; WordB]) [L ".props['data']"].

(** Rule 2: "container\.children\[(\d+)\]\." becomes
    "container.children[\1]?.". *)
Definition rule2 : rule :=
  Rule (seqs [str "container.children["; Group 1 (Plus is_digit); str "]."])
       [L "container.children["; TGroup 1; L "]?."].

(** Rule 3: "<([^,>]+), TInput>" becomes "<\1, any>". *)
Definition rule3 : rule :=
  Rule (seqs [str "<"; Group 1 (Plus (not_chars "," ">")); str ", TInput>"])
       [L "<"; TGroup 1; L ", any>"].

(** Rule 4: "sliceAngles\[(\d+)\]([^?])" becomes "sliceAngles[\1]!\2". *)
Definition rule4 : rule :=
  Rule (seqs [str "sliceAngles["; Group 1 (Plus is_digit); str "]";
              Group 2 (Chr (not_char "?"))])
       [L "sliceAngles["; TGroup 1; L "]!"; TGroup 2].

Definition rules : list rule := [rule1; rule2; rule3; rule4].

Definition final_fixes (content : text) : text :=
  let content := apply_rule rule1 content in
  let content := apply_rule rule2 content in
  let content := apply_rule rule3 content in
  let content := apply_rule rule4 content in
  content.

Definition process_file : World -> string -> World * bool :=
  Driver.process_file (fun _ content => final_fixes content).

Definition main (w : World) : World :=
  let src_dir := "src"%string in
  let files_fixed := 0 in
  let (w1, files_fixed) :=
    Driver.for_suffixes (fun _ content => final_fixes content)
      src_dir [".test.ts"%string] w files_fixed in
  Driver.report w1 files_fixed.

End FinalPush.

(** ** final_safe_fix.py *)

Module FinalSafe.

(** "\s*const _\w+ = ", tried with [re.match] at the start of a line. *)
Definition decl_pattern : regex :=
  seqs [Star is_space; str "const _"; Plus is_word; str " = "].

Definition is_decl (line : text) : bool := re_match decl_pattern line.

(** The [while i < len(lines)] loop, on the lines from index [i] on: a
    declaration followed by a blank line is skipped with that line
    ([i += 2]); every other line is appended ([i += 1]). *)
Fixpoint drop_unused (lines : list text) : list text :=
  match lines with
  | [] => []
  | line :: rest =>
      if is_decl line then
        match rest with
        | next :: rest' =>
            if is_blank next then drop_unused rest'
            else line :: drop_unused rest
        | [] => line :: drop_unused rest
        end
      else line :: drop_unused rest
  end.

Definition remove_unused (content : text) : text :=
  let lines := split_lines content in
  let new_lines := drop_unused lines in
  join_lines new_lines.

Definition problematic_props : list string :=
  ["cpu"; "memory"; "sessionId"; "userId"; "tenantId"; "className"; "id";
   "payload"; "source"; "timestamp"]%string.

(** "\.OWNER\.PROP\b" becomes ".OWNER['PROP']". *)
Definition index_rule (owner prop : string) : rule :=
  Rule (seqs [str "."; str owner; str "."; str prop; WordB])
       [L "."; L owner; L "['"; L prop; L "']"].

(** The three substitutions of one turn of the [for prop] loop. *)
Definition prop_rules (prop : string) : list rule :=
  [index_rule "metadata" prop; index_rule "data" prop; index_rule "props" prop].

(** "chart\.FUNC\(mockData\.find\(([^)]+)\)\)" becomes
    "chart.FUNC(mockData.find(\1)!)". *)
Definition find_rule (func : string) : rule :=
  Rule (seqs [str "chart."; str func; str "(mockData.find(";
              Group 1 (Plus (not_char ")")); str "))"])
       [L "chart."; L func; L "(mockData.find("; TGroup 1; L ")!)"].

(** "(\w+)\s+as\s+\{\s*props:\s*\{" becomes "\1 as unknown as { props: {". *)
Definition as_rule : rule :=
  Rule (seqs [Group 1 (Plus is_word); Plus is_space; str "as"; Plus is_space;
              str "{"; Star is_space; str "props:"; Star is_space; str "{"])
       [TGroup 1; L " as unknown as { props: {"].

(** "OWNER\.payload\.(\w+)" becomes "(OWNER.payload as any).\1". *)
Definition payload_rule (owner : string) : rule :=
  Rule (seqs [str owner; str ".payload."; Group 1 (Plus is_word)])
       [L "("; L owner; L ".payload as any)."; TGroup 1].

(** "msg1?\.payload\.(\w+)" becomes "(msg1.payload as any).\1". *)
Definition msg_rule : rule :=
  Rule (seqs [str "msg"; Opt (str "1"); str ".payload.";
              Group 1 (Plus is_word)])
       [L "(msg1.payload as any)."; TGroup 1].

(** "sliceAngles\[(\d+)\]\." becomes "sliceAngles[\1]?.". *)
Definition slice_rule : rule :=
  Rule (seqs [str "sliceAngles["; Group 1 (Plus is_digit); str "]."])
       [L "sliceAngles["; TGroup 1; L "]?."].

(** Every [re.sub] of [safe_fixes], in the order of the calls. *)
Definition rules : list rule :=
  concat (map prop_rules problematic_props) ++
  [find_rule "selectDataPoint"; find_rule "hoverDataPoint"; as_rule;
   payload_rule "cell"; payload_rule "request"; msg_rule; payload_rule "msg2";
   slice_rule].

Definition safe_fixes (content : text) (filepath : string) : text :=
  let original := content in
  let content := remove_unused content in
  let content :=
    fold_left (fun content prop => apply_rules (prop_rules prop) content)
      problematic_props content in
  let content := apply_rule (find_rule "selectDataPoint") content in
  let content := apply_rule (find_rule "hoverDataPoint") content in
  let content := apply_rule as_rule content in
  let content := apply_rule (payload_rule "cell") content in
  let content := apply_rule (payload_rule "request") content in
  let content := apply_rule msg_rule content in
  let content := apply_rule (payload_rule "msg2") content in
  let content := apply_rule slice_rule content in
  content.

Definition process_file : World -> string -> World * bool :=
  Driver.process_file (fun filepath content => safe_fixes content filepath).

Definition main (w : World) : World :=
  let src_dir := "src"%string in
  let files_fixed := 0 in
  let (w1, files_fixed) :=
    Driver.for_suffixes (fun filepath content => safe_fixes content filepath)
      src_dir [".test.ts"; ".stories.ts"]%string w files_fixed in
  Driver.report w1 files_fixed.

End FinalSafe.

(** ** ultra_targeted_fix.py *)

Module UltraTargeted.

(** Rule 1: "vdom\.children\[" becomes "vdom.children?.[". *)
Definition rule1 : rule :=
  Rule (str "vdom.children[") [L "vdom.children?.["].

(** Rule 2: "\.props\.className\b" becomes ".props['className']". *)
Definition rule2 : rule :=
  Rule (seqs [str ".props.className"; WordB]) [L ".props['className']"].

(** Rule 3: "chart\.(selectDataPoint|hoverDataPoint|clickDataPoint)\(([^!]+)\)"
    becomes "chart.\1(\2!)". *)
Definition rule3 : rule :=
  Rule (seqs [str "chart.";
              Group 1 (Alt (str "selectDataPoint")
                        (Alt (str "hoverDataPoint") (str "clickDataPoint")));
              str "("; Group 2 (Plus (not_char "!")); str ")"])
       [L "chart."; TGroup 1; L "("; TGroup 2; L "!)"].

(** Rules 4a-4c: "NAME\[(\d+)\]\." becomes "NAME[\1]?." for the names
    interactions, events and bars. *)
Definition index_rule (name : string) : rule :=
  Rule (seqs [str name; str "["; Group 1 (Plus is_digit); str "]."])
       [L name; L "["; TGroup 1; L "]?."].

Definition rule4a : rule := index_rule "interactions".
Definition rule4b : rule := index_rule "events".
Definition rule4c : rule := index_rule "bars".

(** Rule 5a: "expect\(s\)\.toBe" becomes "expect(s as any).toBe". *)
Definition rule5a : rule :=
  Rule (str "expect(s).toBe") [L "expect(s as any).toBe"].

(** Rule 5b: "expect\(signal\)\.toBe\(" becomes "expect(signal as any).toBe(". *)
Definition rule5b : rule :=
  Rule (str "expect(signal).toBe(") [L "expect(signal as any).toBe("].

(** Rule 6a: "mockData\.find\(d => d\.x === (\d+)\)\)" becomes
    "mockData.find(d => d.x === \1)!)". *)
Definition rule6a : rule :=
  Rule (seqs [str "mockData.find(d => d.x === "; Group 1 (Plus is_digit);
              str "))"])
       [L "mockData.find(d => d.x === "; TGroup 1; L ")!)"].

(** Rule 6b: "mockPieData\.find\(d => d\.label === \'([^\']+)\'\)\)" becomes
    "mockPieData.find(d => d.label === '\1')!)". *)
Definition rule6b : rule :=
  Rule (seqs [str "mockPieData.find(d => d.label === '";
              Group 1 (Plus (not_char "'")); str "'))"])
       [L "mockPieData.find(d => d.label === '"; TGroup 1; L "')!)"].

Definition rules : list rule :=
  [rule1; rule2; rule3; rule4a; rule4b; rule4c; rule5a; rule5b; rule6a; rule6b].

Definition ultra_targeted_fixes (content : text) : text :=
  let content := apply_rule rule1 content in
  let content := apply_rule rule2 content in
  let content := apply_rule rule3 content in
  let content := apply_rule rule4a content in
  let content := apply_rule rule4b content in
  let content := apply_rule rule4c content in
  let content := apply_rule rule5a content in
  let content := apply_rule rule5b content in
  let content := apply_rule rule6a content in
  let content := apply_rule rule6b content in
  content.

Definition process_file : World -> string -> World * bool :=
  Driver.process_file (fun _ content => ultra_targeted_fixes content).

Definition main (w : World) : World :=
  let src_dir := "src"%string in
  let files_fixed := 0 in
  let (w1, files_fixed) :=
    Driver.for_suffixes (fun _ content => ultra_targeted_fixes content)
      src_dir [".test.ts"; ".stories.ts"]%string w files_fixed in
  Driver.report w1 files_fixed.

End UltraTargeted.

(** ** fix_ts_errors.py *)

Module FixTsErrors.

(** "\((\w+)\)\s*=>\s*(\w+)\.push\(\1\)" becomes
    "(\1) => {\n        \2.push(\1);\n      }". *)
Definition push_rule : rule :=
  Rule (seqs [str "("; Group 1 (Plus is_word); str ")"; Star is_space;
              str "=>"; Star is_space; Group 2 (Plus is_word); str ".push(";
              Backref 1; str ")"])
       [L "("; TGroup 1; L ") => {"; TLit nl; L "        "; TGroup 2;
        L ".push("; TGroup 1; L ");"; TLit nl; L "      }"].

Definition fix_push_callbacks (content : text) : text :=
  apply_rule push_rule content.

(** "\(\)\s*=>\s*(\w+)\+\+" becomes "() => {\n        \1++;\n      }". *)
Definition increment_rule : rule :=
  Rule (seqs [str "()"; Star is_space; str "=>"; Star is_space;
              Group 1 (Plus is_word); str "++"])
       [L "() => {"; TLit nl; L "        "; TGroup 1; L "++;"; TLit nl;
        L "      }"].

Definition fix_increment_callbacks (content : text) : text :=
  apply_rule increment_rule content.

(** "(\w+)\[I\]\.PROP" becomes "\1[I]?.PROP". *)
Definition optional_rule (index prop : string) : rule :=
  Rule (seqs [Group 1 (Plus is_word); str "["; str index; str "]."; str prop])
       [TGroup 1; L "["; L index; L "]?."; L prop].

Definition replacements : list rule :=
  [optional_rule "0" "payload"; optional_rule "0" "message";
   optional_rule "0" "id"; optional_rule "1" "payload";
   optional_rule "1" "message"].

(** Defined by the script and called nowhere in it. *)
Definition fix_optional_access (content : text) : text :=
  fold_left (fun content ru => apply_rule ru content) replacements content.

(** The rules [fix_file] applies, in its order. *)
Definition rules : list rule := [push_rule; increment_rule].

(** [fix_file] has no [try]: an exception of [open], [read] or [write]
    leaves the function. *)
Definition fix_file (w : World) (filepath : string) : World * result bool :=
  match read_text w filepath with
  | Raise e => (w, Raise e)
  | Ok content =>
      let original := content in
      let content := fix_push_callbacks content in
      let content := fix_increment_callbacks content in
      if negb (text_eqb content original) then
        match write_text w filepath content with
        | Raise e => (w, Raise e)
        | Ok w' => (w', Ok true)
        end
      else (w, Ok false)
  end.

(** One [for filepath in ...] loop of [main]; an exception ends it. *)
Fixpoint for_files (paths : list string) (w : World) (files_fixed : nat)
    : World * result nat :=
  match paths with
  | [] => (w, Ok files_fixed)
  | filepath :: rest =>
      match fix_file w filepath with
      | (w1, Raise e) => (w1, Raise e)
      | (w1, Ok true) =>
          for_files rest (print w1 ("Fixed: " +:+ filepath)) (files_fixed + 1)
      | (w1, Ok false) => for_files rest w1 files_fixed
      end
  end.

(** [main]: the exception of a file ends the run before the total is
    printed. *)
Definition main (w : World) : World * result unit :=
  let src_dir := "src"%string in
  let files_fixed := 0 in
  match for_files (rglob w src_dir ".test.ts") w files_fixed with
  | (w1, Raise e) => (w1, Raise e)
  | (w1, Ok files_fixed) =>
      match for_files (rglob w1 src_dir ".stories.ts") w1 files_fixed with
      | (w2, Raise e) => (w2, Raise e)
      | (w2, Ok files_fixed) => (Driver.report w2 files_fixed, Ok tt)
      end
  end.

End FixTsErrors.


(** * Notions used in the statements *)



(** The world after [content] has been written to [filepath]. *)
Definition put_text (w : World) (filepath : string) (content : text) : World :=
  mkWorld (dirs w) (<[filepath := File content None None]> (files w)) (stdout w).

(** The root is no directory, or it is a directory with no file below it. *)
Definition absent_or_empty (w : World) (d : string) : Prop :=
  path_exists w d = false \/
  (d ∈ dirs w /\
   forall p, String.prefix (d +:+ "/") p = true -> files w !! p = None).

(** ** What a pattern matches *)

(** [matches r prev t rest g g']: the pattern [r] can match exactly the
    text [t], with [prev] the character before it and [rest] the text
    after it, taking the captured groups from [g] to [g'].  This is the
    set of matches the backtracking matcher chooses from. *)
Fixpoint matches (r : regex) (prev : option ascii) (t rest : text)
    (g g' : caps) : Prop :=
  match r with
  | Eps => t = [] /\ g' = g
  | Chr c => exists a, t = [a] /\ c a = true /\ g' = g
  | Seq r1 r2 =>
      exists t1 t2 g1,
        t = t1 ++ t2 /\
        matches r1 prev t1 (t2 ++ rest) g g1 /\
        matches r2 (last_char t1 prev) t2 rest g1 g'
  | Alt r1 r2 => matches r1 prev t rest g g' \/ matches r2 prev t rest g g'
  | Star c => forallb c t = true /\ g' = g
  | Group n r1 => exists g1, matches r1 prev t rest g g1 /\ g' = (n, t) :: g1
  | Backref n => group n g = Some t /\ g' = g
  | WordB =>
      t = [] /\ xorb (word_before prev) (word_after rest) = true /\ g' = g
  end.

(** A pattern that cannot match the empty text, by its shape. *)
Fixpoint nullable (r : regex) : bool :=
  match r with
  | Eps => true
  | Chr _ => false
  | Seq r1 r2 => nullable r1 && nullable r2
  | Alt r1 r2 => nullable r1 || nullable r2
  | Star _ => true
  | Group _ r1 => nullable r1
  | Backref _ => true
  | WordB => true
  end.

(** [drop_char c s]: the text [s] without its characters [c]. *)
Definition drop_char (c : ascii) (s : text) : text :=
  List.filter (fun a => negb (Ascii.eqb a c)) s.

(** [inserts c i o]: the text [o] is the text [i] with some characters [c]
    put in. *)
Inductive inserts (c : ascii) : text -> text -> Prop :=
| inserts_nil : inserts c [] []
| inserts_keep x i o : inserts c i o -> inserts c (x :: i) (x :: o)
| inserts_add i o : inserts c i o -> inserts c i (c :: o).

(** The rules that rewrite an indexed access to optional chaining. *)
Definition optional_chaining_rules : list rule :=
  [Comprehensive.rule2; FinalPush.rule2; FinalSafe.slice_rule;
   UltraTargeted.rule4a; UltraTargeted.rule4b; UltraTargeted.rule4c] ++
  FixTsErrors.replacements.

(** The rules that add a non-null assertion. *)
Definition non_null_rules : list rule :=
  [FinalPush.rule4; FinalSafe.find_rule "selectDataPoint";
   FinalSafe.find_rule "hoverDataPoint"; UltraTargeted.rule3;
   UltraTargeted.rule6a; UltraTargeted.rule6b].

(** The rules that put a cast or an accessor around or before what they
    match. *)
Definition wrapping_rules : list rule :=
  [Comprehensive.rule5; FinalSafe.payload_rule "cell";
   FinalSafe.payload_rule "request"; FinalSafe.msg_rule;
   FinalSafe.payload_rule "msg2"; UltraTargeted.rule1; UltraTargeted.rule5a;
   UltraTargeted.rule5b].

(** Every [re.sub] pattern of the five scripts. *)
Definition all_rules : list rule :=
  Comprehensive.rules ++ FinalPush.rules ++ FinalSafe.rules ++
  UltraTargeted.rules ++ FixTsErrors.rules ++ FixTsErrors.replacements.


(** The lines "Fixed: ..." among printed lines. *)
Definition fixed_line (line : string) : bool := String.prefix "Fixed: " line.

Definition count_fixed (lines : list string) : nat :=
  length (List.filter fixed_line lines).

(** The path [q] is below none of the [roots], or its name ends in none of
    the [suffixes]. *)
Definition outside (roots suffixes : list string) (q : string) : Prop :=
  forallb (fun d => negb (String.prefix (d +:+ "/") q)) roots = true \/
  forallb (fun suffix => negb (has_suffix suffix q)) suffixes = true.

(** The last line [main] prints. *)
Definition total_line (n : nat) : string :=
  String LF "Total files fixed: " +:+ string_of_nat n.

(** The loops of a [main] taken together: where they leave the world and
    the count. *)
Definition loops_frame (roots suffixes : list string) (w w1 : World)
    (n1 : nat) : Prop :=
  dirs w1 = dirs w /\
  dom (files w1) = dom (files w) /\
  (forall q, outside roots suffixes q -> files w1 !! q = files w !! q) /\
  (exists new, stdout w1 = new ++ stdout w /\ n1 = count_fixed new).



(** ** Sample texts and worlds *)

(** A sample world: directory [src] with one test file. *)
Definition sample_world (c : text) : World :=
  mkWorld {[ "src"%string ]}
          {[ "src/a.test.ts"%string := File c None None ]}
          [].

Definition plain_text : text := txt "const total = sum(values);".

Definition items_access : text := txt "items[0].value".

Definition select_call : text :=
  txt "chart.selectDataPoint(mockData.find(d => d.x === 3))".


Definition callback_text : text := txt "emitter.on(() => count++);".

(** A world with a test file that cannot be read and a second test file
    that the rules of fix_ts_errors would change. *)
Definition faulty_world : World :=
  mkWorld {[ "src"%string ]}
    (<[ "src/a.test.ts"%string :=
          File [] (Some "[Errno 13] Permission denied: 'src/a.test.ts'"%string) None ]>
       {[ "src/b.test.ts"%string := File callback_text None None ]})
    [].

Definition bare_world : World := mkWorld ∅ ∅ [].


Definition chained_access : text := txt "a[0].b[1].c".


(** * Properties *)

(** ** A pattern that matches nowhere *)


Lemma text_eqb_eq (a b : text) : text_eqb a b = true <-> a = b.
Proof. unfold text_eqb. apply bool_decide_eq_true. Qed.





(** ** Splitting and joining lines *)

Lemma split_lines_nonempty (s : text) : split_lines s <> [].
Proof.
  destruct s as [|a s]; simpl; [discriminate |].
  destruct (Ascii.eqb a LF); [discriminate |].
  destruct (split_lines s); discriminate.
Qed.

Lemma join_split_lines (s : text) : join_lines (split_lines s) = s.
Proof.
  induction s as [|a s IH]; [reflexivity |].
  simpl. destruct (Ascii.eqb a LF) eqn:E.
  - apply Ascii.eqb_eq in E. subst a.
    pose proof (split_lines_nonempty s) as Hne.
    destruct (split_lines s) as [|l ls]; [contradiction |].
    change (join_lines ([] :: l :: ls)) with (LF :: join_lines (l :: ls)).
    rewrite IH. reflexivity.
  - pose proof (split_lines_nonempty s) as Hne.
    destruct (split_lines s) as [|l ls]; [contradiction |].
    destruct ls as [|l' ls]; simpl in *; rewrite <- IH; reflexivity.
Qed.



(** ** The transformations as rule lists *)





Lemma fix_ts_rules (c : text) :
  FixTsErrors.fix_increment_callbacks (FixTsErrors.fix_push_callbacks c) =
  apply_rules FixTsErrors.rules c.
Proof. reflexivity. Qed.

(** ** The driver on a file the transformation leaves alone *)





(** ** The concrete scenarios *)

(** C8. On the text "items[0].value" the indexed-access rule of
    comprehensive_fix (rule 2) gives exactly "items[0]?.value": the text
    before the dot, a question mark, the text from the dot on.  The whole
    of [fix_content] gives the same text. *)
Theorem indexed_access_scenario :
  apply_rule Comprehensive.rule2 items_access = txt "items[0]?.value" /\
  apply_rule Comprehensive.rule2 items_access =
    firstn 8 items_access ++ txt "?" ++ skipn 8 items_access /\
  forall filepath,
    Comprehensive.fix_content items_access filepath = txt "items[0]?.value".
Proof.
  split; [vm_compute; reflexivity |].
  split; [vm_compute; reflexivity |].
  intros filepath. vm_compute. reflexivity.
Qed.

(** C2. On the call "chart.selectDataPoint(mockData.find(d => d.x === 3))"
    the null-argument rule of comprehensive_fix (rule 6) replaces the find
    call by the literal text ".find(...)!)": the predicate is lost, and
    the result is not the text with one exclamation mark inserted.  The
    rules of final_safe_fix and ultra_targeted_fix for the same call keep
    the predicate and insert the exclamation mark. *)
Theorem null_argument_scenario :
  apply_rule Comprehensive.rule6 select_call =
    txt "chart.selectDataPoint(mockData.find(...)!)" /\
  (forall filepath,
     Comprehensive.fix_content select_call filepath =
       txt "chart.selectDataPoint(mockData.find(...)!)") /\
  apply_rule Comprehensive.rule6 select_call <>
    txt "chart.selectDataPoint(mockData.find(d => d.x === 3)!)" /\
  apply_rule (FinalSafe.find_rule "selectDataPoint") select_call =
    txt "chart.selectDataPoint(mockData.find(d => d.x === 3)!)" /\
  (forall filepath,
     FinalSafe.safe_fixes select_call filepath =
       txt "chart.selectDataPoint(mockData.find(d => d.x === 3)!)") /\
  apply_rule UltraTargeted.rule6a select_call =
    txt "chart.selectDataPoint(mockData.find(d => d.x === 3)!)" /\
  UltraTargeted.ultra_targeted_fixes select_call =
    txt "chart.selectDataPoint(mockData.find(d => d.x === 3)!)".
Proof.
  split; [vm_compute; reflexivity |].
  split; [intros filepath; vm_compute; reflexivity |].
  split; [vm_compute; discriminate |].
  split; [vm_compute; reflexivity |].
  split; [intros filepath; vm_compute; reflexivity |].
  split; vm_compute; reflexivity.
Qed.


(** ** The line pass of final_safe_fix *)







(** ** The driver on a file without faults *)

Lemma read_text_sound (w : World) (filepath : string) (c : text) :
  files w !! filepath = Some (File c None None) ->
  read_text w filepath = Ok c.
Proof. intros H. unfold read_text. rewrite H. reflexivity. Qed.

Lemma write_text_sound (w : World) (filepath : string) (c c' : text) :
  files w !! filepath = Some (File c None None) ->
  write_text w filepath c' = Ok (put_text w filepath c').
Proof. intros H. unfold write_text. rewrite H. reflexivity. Qed.

Lemma read_put_text (w : World) (filepath : string) (c' : text) :
  read_text (put_text w filepath c') filepath = Ok c'.
Proof.
  unfold read_text, put_text. cbn [files].
  rewrite lookup_insert_eq. reflexivity.
Qed.


Lemma process_file_ok (fixes : string -> text -> text) (w : World)
    (filepath : string) (c : text) :
  files w !! filepath = Some (File c None None) ->
  Driver.process_file fixes w filepath =
    if text_eqb (fixes filepath c) c then (w, false)
    else (put_text w filepath (fixes filepath c), true).
Proof.
  intros H. unfold Driver.process_file.
  rewrite (read_text_sound _ _ _ H). cbn zeta.
  rewrite (write_text_sound _ _ _ (fixes filepath c) H).
  destruct (text_eqb (fixes filepath c) c); reflexivity.
Qed.

Lemma fix_file_ok (w : World) (filepath : string) (c : text) :
  files w !! filepath = Some (File c None None) ->
  FixTsErrors.fix_file w filepath =
    if text_eqb (apply_rules FixTsErrors.rules c) c then (w, Ok false)
    else (put_text w filepath (apply_rules FixTsErrors.rules c), Ok true).
Proof.
  intros H. unfold FixTsErrors.fix_file.
  rewrite (read_text_sound _ _ _ H). cbn zeta. rewrite fix_ts_rules.
  rewrite (write_text_sound _ _ _ (apply_rules FixTsErrors.rules c) H).
  destruct (text_eqb (apply_rules FixTsErrors.rules c) c); reflexivity.
Qed.



(** The text on disk after the per-file function has run. *)
Lemma process_file_result (fixes : string -> text -> text) (w : World)
    (filepath : string) (c : text) :
  files w !! filepath = Some (File c None None) ->
  read_text (fst (Driver.process_file fixes w filepath)) filepath =
    Ok (fixes filepath c) /\
  snd (Driver.process_file fixes w filepath) =
    negb (text_eqb (fixes filepath c) c).
Proof.
  intros H. rewrite (process_file_ok fixes w filepath c H).
  destruct (text_eqb (fixes filepath c) c) eqn:E; cbn [fst snd negb].
  - apply text_eqb_eq in E. rewrite E.
    split; [exact (read_text_sound _ _ _ H) | reflexivity].
  - split; [apply read_put_text | reflexivity].
Qed.

Lemma fix_file_result (w : World) (filepath : string) (c : text) :
  files w !! filepath = Some (File c None None) ->
  read_text (fst (FixTsErrors.fix_file w filepath)) filepath =
    Ok (apply_rules FixTsErrors.rules c) /\
  snd (FixTsErrors.fix_file w filepath) =
    Ok (negb (text_eqb (apply_rules FixTsErrors.rules c) c)).
Proof.
  intros H. rewrite (fix_file_ok w filepath c H).
  destruct (text_eqb (apply_rules FixTsErrors.rules c) c) eqn:E;
    cbn [fst snd negb].
  - apply text_eqb_eq in E. rewrite E.
    split; [exact (read_text_sound _ _ _ H) | reflexivity].
  - split; [apply read_put_text | reflexivity].
Qed.

(** C7. Two runs of the per-file function on files with the same text,
    in any two worlds and under any two paths, end with the same text on
    disk and return the same flag; the transformation functions that take
    the file path give the same text for every path. *)
Theorem per_file_deterministic (w1 w2 : World) (p1 p2 : string) (c : text) :
  files w1 !! p1 = Some (File c None None) ->
  files w2 !! p2 = Some (File c None None) ->
  (read_text (fst (Comprehensive.process_file w1 p1)) p1 =
   read_text (fst (Comprehensive.process_file w2 p2)) p2 /\
   snd (Comprehensive.process_file w1 p1) =
   snd (Comprehensive.process_file w2 p2)) /\
  (read_text (fst (FinalSafe.process_file w1 p1)) p1 =
   read_text (fst (FinalSafe.process_file w2 p2)) p2 /\
   snd (FinalSafe.process_file w1 p1) = snd (FinalSafe.process_file w2 p2)) /\
  (read_text (fst (FinalPush.process_file w1 p1)) p1 =
   read_text (fst (FinalPush.process_file w2 p2)) p2 /\
   snd (FinalPush.process_file w1 p1) = snd (FinalPush.process_file w2 p2)) /\
  (read_text (fst (UltraTargeted.process_file w1 p1)) p1 =
   read_text (fst (UltraTargeted.process_file w2 p2)) p2 /\
   snd (UltraTargeted.process_file w1 p1) =
   snd (UltraTargeted.process_file w2 p2)) /\
  (read_text (fst (FixTsErrors.fix_file w1 p1)) p1 =
   read_text (fst (FixTsErrors.fix_file w2 p2)) p2 /\
   snd (FixTsErrors.fix_file w1 p1) = snd (FixTsErrors.fix_file w2 p2)) /\
  Comprehensive.fix_content c p1 = Comprehensive.fix_content c p2 /\
  FinalSafe.safe_fixes c p1 = FinalSafe.safe_fixes c p2.
Proof.
  intros H1 H2.
  pose proof (process_file_result
                (fun p x => Comprehensive.fix_content x p) w1 p1 c H1) as [A1 B1].
  pose proof (process_file_result
                (fun p x => Comprehensive.fix_content x p) w2 p2 c H2) as [A2 B2].
  pose proof (process_file_result
                (fun p x => FinalSafe.safe_fixes x p) w1 p1 c H1) as [C1 D1].
  pose proof (process_file_result
                (fun p x => FinalSafe.safe_fixes x p) w2 p2 c H2) as [C2 D2].
  pose proof (process_file_result
                (fun _ x => FinalPush.final_fixes x) w1 p1 c H1) as [E1 F1].
  pose proof (process_file_result
                (fun _ x => FinalPush.final_fixes x) w2 p2 c H2) as [E2 F2].
  pose proof (process_file_result
                (fun _ x => UltraTargeted.ultra_targeted_fixes x) w1 p1 c H1)
    as [G1 I1].
  pose proof (process_file_result
                (fun _ x => UltraTargeted.ultra_targeted_fixes x) w2 p2 c H2)
    as [G2 I2].
  pose proof (fix_file_result w1 p1 c H1) as [J1 K1].
  pose proof (fix_file_result w2 p2 c H2) as [J2 K2].
  unfold Comprehensive.process_file, FinalSafe.process_file,
    FinalPush.process_file, UltraTargeted.process_file.
  rewrite A1, A2, B1, B2, C1, C2, D1, D2, E1, E2, F1, F2, G1, G2, I1, I2,
    J1, J2, K1, K2.
  repeat split; reflexivity.
Qed.

Lemma per_file_deterministic_witness :
  files (sample_world items_access) !! "src/a.test.ts"%string =
    Some (File items_access None None) /\
  files (put_text (sample_world plain_text) "e2e/b.spec.ts" items_access)
    !! "e2e/b.spec.ts"%string = Some (File items_access None None) /\
  snd (Comprehensive.process_file (sample_world items_access) "src/a.test.ts") =
  snd (Comprehensive.process_file
         (put_text (sample_world plain_text) "e2e/b.spec.ts" items_access)
         "e2e/b.spec.ts").
Proof.
  assert (H1 : files (sample_world items_access) !! "src/a.test.ts"%string =
               Some (File items_access None None)) by (vm_compute; reflexivity).
  assert (H2 : files (put_text (sample_world plain_text) "e2e/b.spec.ts"
                        items_access) !! "e2e/b.spec.ts"%string =
               Some (File items_access None None)) by (vm_compute; reflexivity).
  exact (conj H1 (conj H2
           (proj2 (proj1 (per_file_deterministic _ _ _ _ _ H1 H2))))).
Defined.

(** ** Errors of reading and writing *)


(** C3. fix_ts_errors has no handler.  In a world whose first test file
    cannot be read, [fix_file] raises instead of returning False, and
    [main] ends with that exception: nothing is printed, the second file,
    which the rules would change, is never processed.  On the same world
    [process_file] of comprehensive_fix catches the error, prints it and
    returns False, and its [main] goes on to fix the second file and to
    print the report. *)
Theorem fix_file_does_not_catch :
  rglob faulty_world "src" ".test.ts" = ["src/a.test.ts"; "src/b.test.ts"]%string /\
  FixTsErrors.fix_file faulty_world "src/a.test.ts" =
    (faulty_world, Raise "[Errno 13] Permission denied: 'src/a.test.ts'") /\
  FixTsErrors.main faulty_world =
    (faulty_world, Raise "[Errno 13] Permission denied: 'src/a.test.ts'") /\
  snd (FixTsErrors.fix_file faulty_world "src/b.test.ts") = Ok true /\
  Comprehensive.process_file faulty_world "src/a.test.ts" =
    (print faulty_world
       "Error processing src/a.test.ts: [Errno 13] Permission denied: 'src/a.test.ts'",
     false) /\
  stdout (Comprehensive.main faulty_world) =
    [String LF "Total files fixed: 1"; "Fixed: src/b.test.ts";
     "Error processing src/a.test.ts: [Errno 13] Permission denied: 'src/a.test.ts'"]%string.
Proof.
  repeat (split; [vm_compute; reflexivity |]).
  vm_compute; reflexivity.
Qed.

(** ** A run with nothing to find *)

Lemma filter_none {A : Type} (P : A -> bool) (l : list A) :
  (forall x, In x l -> P x = false) -> List.filter P l = [].
Proof.
  induction l as [|a l IH]; intros H; [reflexivity |].
  simpl. rewrite (H a (or_introl eq_refl)).
  apply IH. intros x Hx. apply H. right. exact Hx.
Qed.

Lemma rglob_nothing (w : World) (d suffix : string) :
  absent_or_empty w d -> rglob w d suffix = [].
Proof.
  intros [Hmiss | [_ Hempty]]; unfold rglob.
  - unfold path_exists in Hmiss. apply orb_false_iff in Hmiss as [Hd _].
    rewrite Hd. reflexivity.
  - destruct (bool_decide (d ∈ dirs w)); [| reflexivity].
    apply filter_none. intros p Hp.
    apply in_map_iff in Hp as ([p' f] & Hfst & Hin). simpl in Hfst. subst p'.
    apply list_elem_of_In, elem_of_map_to_list in Hin.
    destruct (String.prefix (d +:+ "/") p) eqn:E; [| reflexivity].
    rewrite (Hempty p E) in Hin. discriminate.
Qed.

Lemma for_suffixes_nothing (fixes : string -> text -> text) (w : World)
    (d : string) (suffixes : list string) (n : nat) :
  absent_or_empty w d -> Driver.for_suffixes fixes d suffixes w n = (w, n).
Proof.
  intros H. induction suffixes as [|suffix rest IH]; [reflexivity |].
  simpl. rewrite (rglob_nothing w d suffix H). simpl. exact IH.
Qed.

(** C9. When the root directory of a run does not exist or has no file
    below it ([src] for four scripts, [src] and [e2e] for
    comprehensive_fix), [main] raises nothing and ends in the world it
    started in with one more printed line, the total of zero: no file is
    written. *)
Theorem empty_root_run (w : World) :
  (absent_or_empty w "src" ->
     FinalPush.main w = Driver.report w 0 /\
     FinalSafe.main w = Driver.report w 0 /\
     UltraTargeted.main w = Driver.report w 0 /\
     FixTsErrors.main w = (Driver.report w 0, Ok tt)) /\
  (absent_or_empty w "src" -> absent_or_empty w "e2e" ->
     Comprehensive.main w = Driver.report w 0) /\
  files (Driver.report w 0) = files w /\
  stdout (Driver.report w 0) = String LF "Total files fixed: 0" :: stdout w.
Proof.
  split; [| split; [| split; reflexivity]].
  - intros H. repeat split.
    + unfold FinalPush.main. cbn zeta.
      rewrite (for_suffixes_nothing _ w "src" _ 0 H). reflexivity.
    + unfold FinalSafe.main. cbn zeta.
      rewrite (for_suffixes_nothing _ w "src" _ 0 H). reflexivity.
    + unfold UltraTargeted.main. cbn zeta.
      rewrite (for_suffixes_nothing _ w "src" _ 0 H). reflexivity.
    + unfold FixTsErrors.main. cbn zeta.
      rewrite (rglob_nothing w "src" ".test.ts" H).
      cbn [FixTsErrors.for_files].
      rewrite (rglob_nothing w "src" ".stories.ts" H). reflexivity.
  - intros Hs He. unfold Comprehensive.main. cbn zeta. cbn [fold_left].
    rewrite (for_suffixes_nothing _ w "src" _ 0 Hs).
    destruct (path_exists w "src").
    + rewrite (for_suffixes_nothing _ w "e2e" _ 0 He).
      destruct (path_exists w "e2e"); reflexivity.
    + rewrite (for_suffixes_nothing _ w "e2e" _ 0 He).
      destruct (path_exists w "e2e"); reflexivity.
Qed.

Lemma empty_root_run_witness :
  absent_or_empty bare_world "src" /\
  absent_or_empty (mkWorld {[ "e2e"%string ]} ∅ []) "e2e" /\
  FinalPush.main bare_world = Driver.report bare_world 0 /\
  Comprehensive.main (mkWorld {[ "e2e"%string ]} ∅ []) =
    Driver.report (mkWorld {[ "e2e"%string ]} ∅ []) 0.
Proof.
  assert (H1 : absent_or_empty bare_world "src")
    by (left; vm_compute; reflexivity).
  assert (H2 : absent_or_empty (mkWorld {[ "e2e"%string ]} ∅ []) "src")
    by (left; vm_compute; reflexivity).
  assert (H3 : absent_or_empty (mkWorld {[ "e2e"%string ]} ∅ []) "e2e").
  { right. split; [vm_compute; reflexivity |]. intros p _. reflexivity. }
  refine (conj H1 (conj H3 (conj _ _))).
  - exact (proj1 (proj1 (empty_root_run bare_world) H1)).
  - exact (proj1 (proj2 (empty_root_run _)) H2 H3).
Defined.

(** ** Running the rules twice *)




(** * Further properties of the scripts *)

(** ** The matcher against the set of matches *)

Lemma last_char_app (t1 t2 : text) (prev : option ascii) :
  last_char (t1 ++ t2) prev = last_char t2 (last_char t1 prev).
Proof. unfold last_char. apply fold_left_app. Qed.

Lemma starts_with_sound (t s s' : text) :
  starts_with t s = Some s' -> s = t ++ s'.
Proof.
  revert s. induction t as [|a t IH]; intros s H; simpl in H.
  - injection H as <-. reflexivity.
  - destruct s as [|b s]; [discriminate |].
    destruct (Ascii.eqb a b) eqn:E; [| discriminate].
    apply Ascii.eqb_eq in E. subst b. simpl. f_equal. apply IH. exact H.
Qed.


Lemma star_sound (c : cclass) (k : option ascii -> text -> option (text * caps))
    (s : text) :
  forall prev m, star c k prev s = Some m ->
  exists t rest, s = t ++ rest /\ forallb c t = true /\
                 k (last_char t prev) rest = Some m.
Proof.
  induction s as [|a s IH]; intros prev m H; simpl in H.
  - exists [], []. auto.
  - destruct (c a) eqn:Ca.
    + destruct (star c k (Some a) s) as [m'|] eqn:E.
      * injection H as <-. destruct (IH _ _ E) as (t & rest & -> & Ht & Hk).
        exists (a :: t), rest. simpl. rewrite Ca. auto.
      * exists [], (a :: s). auto.
    + exists [], (a :: s). auto.
Qed.


(** Soundness: what the matcher returns comes from a match of the pattern
    handed to the continuation. *)
Lemma rmatch_sound (r : regex) :
  forall prev s g k m, rmatch r prev s g k = Some m ->
  exists t rest g',
    s = t ++ rest /\ matches r prev t rest g g' /\
    k (last_char t prev) rest g' = Some m.
Proof.
  induction r as [|c|r1 IH1 r2 IH2|r1 IH1 r2 IH2|c|n r1 IH1|n|];
    intros prev s g k m H; simpl in H.
  - exists [], s, g. simpl. auto.
  - destruct s as [|a s]; [discriminate |].
    destruct (c a) eqn:Ca; [| discriminate].
    exists [a], s, g. simpl. split; [reflexivity |]. split; [| exact H].
    exists a. auto.
  - destruct (IH1 _ _ _ _ _ H) as (t1 & rest1 & g1 & -> & M1 & K1).
    destruct (IH2 _ _ _ _ _ K1) as (t2 & rest & g' & -> & M2 & K2).
    exists (t1 ++ t2), rest, g'. rewrite <- app_assoc, last_char_app.
    split; [reflexivity |]. split; [| exact K2].
    simpl. exists t1, t2, g1. auto.
  - destruct (rmatch r1 prev s g k) as [m1|] eqn:E1.
    + injection H as <-.
      destruct (IH1 _ _ _ _ _ E1) as (t & rest & g' & -> & M1 & K1).
      exists t, rest, g'. simpl. auto.
    + destruct (IH2 _ _ _ _ _ H) as (t & rest & g' & -> & M2 & K2).
      exists t, rest, g'. simpl. auto.
  - destruct (star_sound _ _ _ _ _ H) as (t & rest & -> & Ht & K).
    exists t, rest, g. simpl. auto.
  - destruct (IH1 _ _ _ _ _ H) as (t & rest & g1 & -> & M1 & K1).
    exists t, rest, ((n, t) :: g1).
    split; [reflexivity |]. split.
    + simpl. exists g1. auto.
    + rewrite length_app, Nat.add_sub, firstn_app, Nat.sub_diag,
        firstn_all in K1.
      simpl in K1. rewrite app_nil_r in K1. exact K1.
  - destruct (group n g) as [t|] eqn:G; [| discriminate].
    destruct (starts_with t s) as [s'|] eqn:S; [| discriminate].
    apply starts_with_sound in S. subst s.
    exists t, s', g. simpl. auto.
  - destruct (xorb (word_before prev) (word_after s)) eqn:X; [| discriminate].
    exists [], s, g. simpl. auto.
Qed.


Lemma match_at_sound (r : regex) (prev : option ascii) (s : text) (b : bool)
    (n : nat) (g : caps) :
  match_at r prev s b = Some (n, g) ->
  exists t rest,
    s = t ++ rest /\ n = length t /\ matches r prev t rest [] g /\
    (b = true -> t <> []).
Proof.
  unfold match_at. intros H.
  destruct (rmatch r prev s [] _) as [[s' g0]|] eqn:E; [| discriminate].
  injection H as <- <-.
  destruct (rmatch_sound _ _ _ _ _ _ E) as (t & rest & g' & -> & M & K).
  cbv beta in K.
  destruct (b && (length rest =? length (t ++ rest))) eqn:B; [discriminate |].
  injection K as <- <-.
  exists t, rest. rewrite length_app, Nat.add_sub.
  repeat split; try assumption.
  intros -> ->. simpl in B. rewrite Nat.eqb_refl in B. discriminate.
Qed.





Lemma matches_not_nullable (r : regex) :
  forall prev t rest g g',
  nullable r = false -> matches r prev t rest g g' -> t <> [].
Proof.
  induction r as [|c|r1 IH1 r2 IH2|r1 IH1 r2 IH2|c|n r1 IH1|n|];
    intros prev t rest g g' N M; simpl in N, M; try discriminate.
  - destruct M as (a & -> & _). discriminate.
  - destruct M as (t1 & t2 & g1 & -> & M1 & M2).
    apply andb_false_iff in N as [N | N].
    + pose proof (IH1 _ _ _ _ _ N M1). destruct t1; [contradiction | discriminate].
    + pose proof (IH2 _ _ _ _ _ N M2).
      destruct t1; [exact H | discriminate].
  - apply orb_false_iff in N as [N1 N2].
    destruct M as [M | M]; [exact (IH1 _ _ _ _ _ N1 M) | exact (IH2 _ _ _ _ _ N2 M)].
  - destruct M as (g1 & M1 & _). exact (IH1 _ _ _ _ _ N M1).
Qed.

(** ** [re.sub] piece by piece *)

(** A relation between output and input that holds of the empty texts, of
    a copied character and of every replacement against the text it
    replaces, and that concatenation keeps, holds between the result of
    [re.sub] and its subject. *)
Lemma sub_loop_related (R : text -> text -> Prop) (r : regex) (tpl : template) :
  R [] [] ->
  (forall a b c d, R a b -> R c d -> R (a ++ c) (b ++ d)) ->
  (forall x, R [x] [x]) ->
  (forall prev t rest b g,
     match_at r prev (t ++ rest) b = Some (length t, g) ->
     matches r prev t rest [] g ->
     R (expand tpl g) t) ->
  forall s prev skip, skip <= length s ->
    R (sub_loop r tpl prev s skip) (skipn skip s).
Proof.
  intros Hnil Happ Hone Hrep.
  assert (Hmatch : forall prev s b n g,
            match_at r prev s b = Some (n, g) ->
            n <= length s /\ R (expand tpl g) (firstn n s)).
  { intros prev s b n g H.
    destruct (match_at_sound _ _ _ _ _ _ H) as (t & rest & -> & -> & M & _).
    rewrite length_app. split; [lia |].
    rewrite firstn_app, Nat.sub_diag, firstn_all. simpl. rewrite app_nil_r.
    exact (Hrep _ _ _ _ _ H M). }
  induction s as [|a s IH]; intros prev skip Hskip.
  - simpl in Hskip. assert (skip = 0) as -> by lia. simpl.
    destruct (match_at r prev [] false) as [[n g]|] eqn:E; [| exact Hnil].
    destruct (Hmatch _ _ _ _ _ E) as [Hn HR]. simpl in Hn.
    assert (n = 0) as -> by lia. simpl in HR.
    destruct (match_at r prev [] true) as [[n' g']|] eqn:E'.
    + destruct (Hmatch _ _ _ _ _ E') as [Hn' HR']. simpl in Hn'.
      assert (n' = 0) as -> by lia.
      exact (Happ _ [] _ [] HR Hnil).
    + exact (Happ _ [] _ [] HR Hnil).
  - assert (Hcopy : R (firstn 1 (a :: s) ++ sub_loop r tpl (Some a) s 0)
                      (a :: s)).
    { change (a :: s) with ([a] ++ s) at 2. simpl firstn.
      apply Happ; [apply Hone |]. apply (IH (Some a) 0). lia. }
    assert (Hstep : forall n g b,
              match_at r prev (a :: s) b = Some (S n, g) ->
              R (expand tpl g ++ sub_loop r tpl (Some a) s n) (a :: s)).
    { intros n g b E. destruct (Hmatch _ _ _ _ _ E) as [Hn HR].
      simpl in Hn.
      rewrite <- (firstn_skipn (S n) (a :: s)).
      apply Happ; [exact HR |]. simpl skipn. apply IH. lia. }
    destruct skip as [|k].
    + cbn [sub_loop skipn].
      destruct (match_at r prev (a :: s) false) as [[[|n] g]|] eqn:E.
      * destruct (Hmatch _ _ _ _ _ E) as [_ HR]. simpl in HR.
        refine (Happ _ [] _ (a :: s) HR _).
        destruct (match_at r prev (a :: s) true) as [[[|n'] g']|] eqn:E'.
        -- exact Hcopy.
        -- exact (Hstep _ _ _ E').
        -- exact Hcopy.
      * exact (Hstep _ _ _ E).
      * exact Hcopy.
    + cbn [sub_loop skipn]. apply IH. simpl in Hskip. lia.
Qed.

Lemma re_sub_related (R : text -> text -> Prop) (r : regex) (tpl : template) :
  R [] [] ->
  (forall a b c d, R a b -> R c d -> R (a ++ c) (b ++ d)) ->
  (forall x, R [x] [x]) ->
  (forall prev t rest b g,
     match_at r prev (t ++ rest) b = Some (length t, g) ->
     matches r prev t rest [] g ->
     R (expand tpl g) t) ->
  forall s, R (re_sub r tpl s) s.
Proof.
  intros Hnil Happ Hone Hrep s.
  exact (sub_loop_related R r tpl Hnil Happ Hone Hrep s None 0 (Nat.le_0_l _)).
Qed.

(** ** Rules that only insert, rules that only delete *)

Lemma inserts_refl (c : ascii) (s : text) : inserts c s s.
Proof. induction s; constructor; assumption. Qed.

Lemma inserts_app (c : ascii) (a b x y : text) :
  inserts c a b -> inserts c x y -> inserts c (a ++ x) (b ++ y).
Proof. intros H. induction H; intros Hx; simpl; try constructor; auto. Qed.

Lemma inserts_app_same (c : ascii) (t i o : text) :
  inserts c i o -> inserts c (t ++ i) (t ++ o).
Proof. intros H. apply inserts_app; [apply inserts_refl | exact H]. Qed.

Lemma inserts_sublist (c : ascii) (i o : text) : inserts c i o -> sublist i o.
Proof.
  intros H. induction H;
    [constructor | now apply sublist_skip | now apply sublist_cons].
Qed.

Lemma inserts_drop_char (c : ascii) (i o : text) :
  inserts c i o -> drop_char c o = drop_char c i.
Proof.
  intros H. induction H; unfold drop_char in *; simpl.
  - reflexivity.
  - rewrite IHinserts. reflexivity.
  - rewrite Ascii.eqb_refl. simpl. exact IHinserts.
Qed.

Ltac break_matches :=
  repeat match goal with
  | H : exists _, _ |- _ => destruct H
  | H : _ /\ _ |- _ => destruct H
  | H : _ \/ _ |- _ => destruct H
  | H : is_char _ _ = true |- _ =>
      unfold is_char in H; apply Ascii.eqb_eq in H
  end; subst.

Ltac inserts_chase :=
  repeat first
    [ apply inserts_nil
    | apply inserts_refl
    | apply inserts_keep
    | apply inserts_app_same
    | apply inserts_add ].

Ltac sublist_chase :=
  repeat first
    [ apply sublist_nil_l
    | reflexivity
    | apply sublist_skip
    | (apply sublist_app; [reflexivity |])
    | apply sublist_cons
    | apply sublist_inserts_l ].

Lemma rule_inserts (c : ascii) (ru : rule) :
  (forall prev t rest g, matches (pattern ru) prev t rest [] g ->
     inserts c t (expand (replacement ru) g)) ->
  forall s, inserts c s (apply_rule ru s).
Proof.
  intros H s. unfold apply_rule.
  apply (re_sub_related (fun out inp => inserts c inp out)).
  - constructor.
  - intros a b x y H1 H2. now apply inserts_app.
  - intros x. apply inserts_refl.
  - intros prev t rest b g _ M. exact (H _ _ _ _ M).
Qed.

Lemma optional_chaining_inserts (ru : rule) (s : text) :
  In ru optional_chaining_rules -> inserts "?" s (apply_rule ru s).
Proof.
  intros H. revert s. apply rule_inserts.
  simpl in H.
  repeat (destruct H as [<- | H]);
    try contradiction;
    intros prev t rest g M; simpl in M; break_matches;
    cbn; rewrite ?app_nil_r, <- ?app_assoc; cbn; inserts_chase.
Qed.

Lemma non_null_inserts (ru : rule) (s : text) :
  In ru non_null_rules -> inserts "!" s (apply_rule ru s).
Proof.
  intros H. revert s. apply rule_inserts.
  simpl in H.
  repeat (destruct H as [<- | H]);
    try contradiction;
    intros prev t rest g M; simpl in M; break_matches;
    cbn; rewrite ?app_nil_r, <- ?app_assoc; cbn; inserts_chase.
Qed.

(** X1. The optional-chaining rules (rule 2 of comprehensive_fix and of
    final_push, the sliceAngles rule of final_safe_fix, rules 4 of
    ultra_targeted_fix, the list of fix_optional_access) only put question
    marks in: on every text the input is a subsequence of the output, and
    the two are the same text once the question marks are taken out. *)
Theorem optional_chaining_only_inserts (ru : rule) (s : text) :
  In ru optional_chaining_rules ->
  sublist s (apply_rule ru s) /\
  drop_char "?" (apply_rule ru s) = drop_char "?" s /\
  length s <= length (apply_rule ru s).
Proof.
  intros H. pose proof (optional_chaining_inserts ru s H) as I.
  split; [exact (inserts_sublist _ _ _ I) |].
  split; [exact (inserts_drop_char _ _ _ I) |].
  exact (sublist_length _ _ (inserts_sublist _ _ _ I)).
Qed.

Lemma optional_chaining_only_inserts_witness :
  In Comprehensive.rule2 optional_chaining_rules /\
  sublist chained_access (apply_rule Comprehensive.rule2 chained_access) /\
  drop_char "?" (apply_rule Comprehensive.rule2 chained_access) =
    drop_char "?" chained_access.
Proof.
  assert (H : In Comprehensive.rule2 optional_chaining_rules)
    by (simpl; left; reflexivity).
  pose proof (optional_chaining_only_inserts _ chained_access H) as (A & B & _).
  exact (conj H (conj A B)).
Defined.

(** X2. The non-null-assertion rules (rule 4 of final_push, the two find
    rules of final_safe_fix, rules 3 and 6 of ultra_targeted_fix) only put
    exclamation marks in: on every text the input is a subsequence of the
    output, and the two are the same text once the exclamation marks are
    taken out. *)
Theorem non_null_only_inserts (ru : rule) (s : text) :
  In ru non_null_rules ->
  sublist s (apply_rule ru s) /\
  drop_char "!" (apply_rule ru s) = drop_char "!" s /\
  length s <= length (apply_rule ru s).
Proof.
  intros H. pose proof (non_null_inserts ru s H) as I.
  split; [exact (inserts_sublist _ _ _ I) |].
  split; [exact (inserts_drop_char _ _ _ I) |].
  exact (sublist_length _ _ (inserts_sublist _ _ _ I)).
Qed.

Lemma non_null_only_inserts_witness :
  In (FinalSafe.find_rule "selectDataPoint") non_null_rules /\
  sublist select_call
    (apply_rule (FinalSafe.find_rule "selectDataPoint") select_call) /\
  drop_char "!" (apply_rule (FinalSafe.find_rule "selectDataPoint") select_call) =
    drop_char "!" select_call.
Proof.
  assert (H : In (FinalSafe.find_rule "selectDataPoint") non_null_rules)
    by (simpl; right; left; reflexivity).
  pose proof (non_null_only_inserts _ select_call H) as (A & B & _).
  exact (conj H (conj A B)).
Defined.

(** X3. The rules that wrap what they match (rule 5 of comprehensive_fix,
    the payload rules of final_safe_fix, rules 1 and 5 of
    ultra_targeted_fix) lose no character: on every text the input is a
    subsequence of the output. *)
Theorem wrapping_rules_keep_text (ru : rule) (s : text) :
  In ru wrapping_rules ->
  sublist s (apply_rule ru s) /\ length s <= length (apply_rule ru s).
Proof.
  intros H.
  assert (S : sublist s (apply_rule ru s)).
  { unfold apply_rule.
    apply (re_sub_related (fun out inp => sublist inp out)).
    - constructor.
    - intros a b c d H1 H2. now apply sublist_app.
    - intros x. reflexivity.
    - simpl in H.
      repeat (destruct H as [<- | H]);
        try contradiction;
        intros prev t rest b g _ M; simpl in M; break_matches;
        cbn; rewrite ?app_nil_r, <- ?app_assoc; cbn; sublist_chase. }
  split; [exact S | exact (sublist_length _ _ S)].
Qed.

Lemma wrapping_rules_keep_text_witness :
  In FinalSafe.msg_rule wrapping_rules /\
  sublist (txt "msg.payload.id")
    (apply_rule FinalSafe.msg_rule (txt "msg.payload.id")).
Proof.
  assert (H : In FinalSafe.msg_rule wrapping_rules)
    by (simpl; do 3 right; left; reflexivity).
  exact (conj H (proj1 (wrapping_rules_keep_text _ (txt "msg.payload.id") H))).
Defined.

(** X4. Rule 1 of comprehensive_fix only deletes: on every text the output
    is a subsequence of the input, so the rule never writes a character
    that was not there. *)
Theorem removal_rule_only_deletes (s : text) :
  sublist (apply_rule Comprehensive.rule1 s) s /\
  length (apply_rule Comprehensive.rule1 s) <= length s.
Proof.
  assert (S : sublist (apply_rule Comprehensive.rule1 s) s).
  { unfold apply_rule.
    apply (re_sub_related (fun out inp => sublist out inp)).
    - constructor.
    - intros a b c d H1 H2. now apply sublist_app.
    - intros x. reflexivity.
    - intros prev t rest b g _ M. simpl in M. break_matches.
      cbn. rewrite ?app_nil_r, <- ?app_assoc. cbn. sublist_chase. }
  split; [exact S | exact (sublist_length _ _ S)].
Qed.

(** ** No pattern matches the empty text *)

Lemma all_rules_not_nullable (ru : rule) :
  In ru all_rules -> nullable (pattern ru) = false.
Proof.
  assert (H : forallb (fun ru => negb (nullable (pattern ru))) all_rules = true)
    by (vm_compute; reflexivity).
  rewrite forallb_forall in H. intros Hin.
  apply negb_true_iff. exact (H ru Hin).
Qed.

(** X5. No [re.sub] pattern of the five scripts can match the empty text:
    every match takes at least one character of the file, wherever it is
    tried, so a replacement is never put between two characters or at the
    end of the text; and every rule leaves the empty text empty. *)
Theorem patterns_never_match_empty (ru : rule) (prev : option ascii)
    (s : text) (b : bool) (n : nat) (g : caps) :
  In ru all_rules ->
  (match_at (pattern ru) prev s b = Some (n, g) -> 0 < n) /\
  apply_rule ru [] = [].
Proof.
  intros Hin. pose proof (all_rules_not_nullable ru Hin) as N.
  assert (P : forall prev s b n g,
            match_at (pattern ru) prev s b = Some (n, g) -> 0 < n).
  { intros prev0 s0 b0 n0 g0 H.
    destruct (match_at_sound _ _ _ _ _ _ H) as (t & rest & _ & -> & M & _).
    pose proof (matches_not_nullable _ _ _ _ _ _ N M) as Hne.
    destruct t; [contradiction | simpl; lia]. }
  split; [apply P |].
  unfold apply_rule, re_sub. simpl.
  destruct (match_at (pattern ru) None [] false) as [[n0 g0]|] eqn:E;
    [| reflexivity].
  pose proof (P _ _ _ _ _ E) as Hpos.
  destruct (match_at_sound _ _ _ _ _ _ E) as (t & rest & Hs & -> & _).
  destruct t; [simpl in Hpos; lia | discriminate].
Qed.

Lemma patterns_never_match_empty_witness :
  In Comprehensive.rule2 all_rules /\
  match_at (pattern Comprehensive.rule2) None items_access false =
    Some (14, [(3, txt "value"); (2, txt "0"); (1, txt "items")]) /\
  0 < 14.
Proof.
  assert (H : In Comprehensive.rule2 all_rules)
    by (simpl; right; left; reflexivity).
  assert (E : match_at (pattern Comprehensive.rule2) None items_access false =
              Some (14, [(3, txt "value"); (2, txt "0"); (1, txt "items")]))
    by (vm_compute; reflexivity).
  exact (conj H (conj E
           (proj1 (patterns_never_match_empty _ None items_access false _ _ H) E))).
Defined.

(** ** The lines the line pass takes for declarations *)


(** ** The line pass of final_safe_fix on whole files *)

(** Induction along the steps of the loop: two lines dropped, or one line
    appended. *)
Lemma drop_unused_steps (P : list text -> list text -> Prop) :
  P [] [] ->
  (forall line next rest,
     FinalSafe.is_decl line = true -> is_blank next = true ->
     P rest (FinalSafe.drop_unused rest) ->
     P (line :: next :: rest) (FinalSafe.drop_unused rest)) ->
  (forall line rest,
     FinalSafe.drop_unused (line :: rest) = line :: FinalSafe.drop_unused rest ->
     (FinalSafe.is_decl line = true ->
      match rest with next :: _ => is_blank next = false | [] => True end) ->
     P rest (FinalSafe.drop_unused rest) ->
     P (line :: rest) (line :: FinalSafe.drop_unused rest)) ->
  forall lines, P lines (FinalSafe.drop_unused lines).
Proof.
  intros Hnil Hdrop Hkeep.
  assert (H : forall k lines, length lines <= k ->
                P lines (FinalSafe.drop_unused lines)).
  { induction k as [|k IH]; intros lines Hk.
    - destruct lines; [exact Hnil | simpl in Hk; lia].
    - destruct lines as [|line rest]; [exact Hnil |].
      simpl in Hk.
      assert (IHrest : P rest (FinalSafe.drop_unused rest)) by (apply IH; lia).
      destruct (FinalSafe.is_decl line) eqn:D.
      + destruct rest as [|next rest'].
        * cbn [FinalSafe.drop_unused]. rewrite D.
          apply Hkeep; [cbn [FinalSafe.drop_unused]; rewrite D; reflexivity
                       | intros _; exact I | exact IHrest].
        * destruct (is_blank next) eqn:B.
          -- replace (FinalSafe.drop_unused (line :: next :: rest'))
               with (FinalSafe.drop_unused rest')
               by (cbn [FinalSafe.drop_unused]; rewrite D, B; reflexivity).
             apply Hdrop; [exact D | exact B |].
             apply IH. simpl in Hk. lia.
          -- assert (E : FinalSafe.drop_unused (line :: next :: rest') =
                         line :: FinalSafe.drop_unused (next :: rest'))
               by (cbn [FinalSafe.drop_unused]; rewrite D, B; reflexivity).
             rewrite E. apply Hkeep; [exact E | intros _; exact B | exact IHrest].
      + assert (E : FinalSafe.drop_unused (line :: rest) =
                    line :: FinalSafe.drop_unused rest)
          by (cbn [FinalSafe.drop_unused]; rewrite D; reflexivity).
        rewrite E. apply Hkeep; [exact E | intros Hd; congruence | exact IHrest]. }
  intros lines. exact (H (length lines) lines (Nat.le_refl _)).
Qed.

Lemma drop_unused_sublist (lines : list text) :
  sublist (FinalSafe.drop_unused lines) lines.
Proof.
  apply (drop_unused_steps (fun ls out => sublist out ls)).
  - constructor.
  - intros line next rest _ _ H. now apply sublist_cons, sublist_cons.
  - intros line rest _ _ H. now apply sublist_skip.
Qed.

Lemma join_lines_cons (l : text) (ls : list text) :
  join_lines (l :: ls) =
  l ++ match ls with [] => [] | _ :: _ => LF :: join_lines ls end.
Proof. destruct ls; simpl; [rewrite app_nil_r |]; reflexivity. Qed.

Lemma join_lines_sublist (ls' ls : list text) :
  sublist ls' ls -> sublist (join_lines ls') (join_lines ls).
Proof.
  intros H. induction H as [|x l1 l2 H IH|x l1 l2 H IH].
  - constructor.
  - rewrite !join_lines_cons. apply sublist_app; [reflexivity |].
    destruct l1 as [|y l1]; [apply sublist_nil_l |].
    destruct l2 as [|z l2]; [apply sublist_nil_r in H; discriminate |].
    now apply sublist_skip.
  - rewrite (join_lines_cons x l2).
    destruct l2 as [|z l2].
    + apply sublist_nil_r in H. subst l1. apply sublist_nil_l.
    + apply sublist_inserts_l. now apply sublist_cons.
Qed.

Lemma split_lines_no_lf (s : text) :
  Forall (fun l => ~ In LF l) (split_lines s).
Proof.
  induction s as [|a s IH]; simpl.
  - constructor; [intros [] | constructor].
  - destruct (Ascii.eqb a LF) eqn:E.
    + constructor; [intros [] | exact IH].
    + destruct (split_lines s) as [|l ls].
      * constructor; [| constructor]. intros [-> | []].
        rewrite Ascii.eqb_refl in E. discriminate.
      * inversion IH as [|? ? Hl Hls]; subst. constructor; [| exact Hls].
        intros [-> | Hin]; [| exact (Hl Hin)].
        rewrite Ascii.eqb_refl in E. discriminate.
Qed.

Lemma split_lines_line (l s : text) :
  ~ In LF l -> split_lines (l ++ LF :: s) = l :: split_lines s.
Proof.
  induction l as [|a l IH]; intros H; simpl.
  - reflexivity.
  - destruct (Ascii.eqb a LF) eqn:E.
    + apply Ascii.eqb_eq in E. subst a. exfalso. apply H. left. reflexivity.
    + rewrite IH by (intros Hin; apply H; right; exact Hin). reflexivity.
Qed.

Lemma split_lines_single (l : text) : ~ In LF l -> split_lines l = [l].
Proof.
  induction l as [|a l IH]; intros H; simpl; [reflexivity |].
  destruct (Ascii.eqb a LF) eqn:E.
  - apply Ascii.eqb_eq in E. subst a. exfalso. apply H. left. reflexivity.
  - rewrite IH by (intros Hin; apply H; right; exact Hin). reflexivity.
Qed.

Lemma split_join_lines (ls : list text) :
  ls <> [] -> Forall (fun l => ~ In LF l) ls ->
  split_lines (join_lines ls) = ls.
Proof.
  induction ls as [|l ls IH]; intros Hne H; [contradiction |].
  inversion H as [|? ? Hl Hls]; subst.
  destruct ls as [|l' ls].
  - simpl. apply split_lines_single. exact Hl.
  - change (join_lines (l :: l' :: ls)) with (l ++ LF :: join_lines (l' :: ls)).
    rewrite (split_lines_line _ _ Hl), IH; [reflexivity | discriminate | exact Hls].
Qed.

Lemma drop_unused_no_lf (c : text) :
  Forall (fun l => ~ In LF l) (FinalSafe.drop_unused (split_lines c)).
Proof.
  pose proof (split_lines_no_lf c) as Hc.
  rewrite Forall_forall in Hc |- *. intros l Hl. apply Hc.
  exact (elem_of_sublist _ _ _ Hl (drop_unused_sublist (split_lines c))).
Qed.


(** X7. The line pass of final_safe_fix only deletes: the lines it returns
    are a subsequence of the lines it was given, and the text it returns
    is a subsequence of the text it was given; it never changes a line
    and never writes a character that was not there. *)
Theorem line_pass_only_deletes (c : text) (lines : list text) :
  sublist (FinalSafe.drop_unused lines) lines /\
  length (FinalSafe.drop_unused lines) <= length lines /\
  sublist (FinalSafe.remove_unused c) c /\
  length (FinalSafe.remove_unused c) <= length c.
Proof.
  assert (S : sublist (FinalSafe.remove_unused c) c).
  { unfold FinalSafe.remove_unused.
    rewrite <- (join_split_lines c) at 2.
    apply join_lines_sublist, drop_unused_sublist. }
  split; [apply drop_unused_sublist |].
  split; [apply sublist_length, drop_unused_sublist |].
  split; [exact S | exact (sublist_length _ _ S)].
Qed.



(** X10. After the line pass of final_safe_fix the text splits into
    exactly the lines the loop kept; when the loop kept none (the file
    was a declaration and a blank line) the text is empty, which is one
    empty line. *)
Theorem line_pass_lines (c : text) :
  split_lines (FinalSafe.remove_unused c) =
  match FinalSafe.drop_unused (split_lines c) with
  | [] => [[]]
  | kept => kept
  end.
Proof.
  unfold FinalSafe.remove_unused. cbv zeta.
  pose proof (drop_unused_no_lf c) as Hd.
  destruct (FinalSafe.drop_unused (split_lines c)) as [|l ls]; [reflexivity |].
  apply split_join_lines; [discriminate | exact Hd].
Qed.

(** ** What a run leaves alone *)

Lemma write_text_frame (w w' : World) (p : string) (c : text) :
  write_text w p c = Ok w' ->
  dirs w' = dirs w /\ dom (files w') = dom (files w) /\
  stdout w' = stdout w /\
  (forall q, q <> p -> files w' !! q = files w !! q) /\
  (exists f, files w !! p = Some f /\
             files w' !! p = Some (File c (read_error f) (write_error f))).
Proof.
  unfold write_text. destruct (files w !! p) as [f|] eqn:F; [| discriminate].
  destruct (write_error f) eqn:We; [discriminate |].
  intros H. injection H as <-. cbn [dirs files stdout].
  split; [reflexivity |]. split; [| split; [reflexivity | split]].
  - apply dom_insert_lookup_L. rewrite F. eauto.
  - intros q Hq. apply lookup_insert_ne. congruence.
  - exists f. rewrite We. split; [reflexivity | apply lookup_insert_eq].
Qed.

Lemma fixed_line_error (p msg : string) :
  fixed_line (Driver.error_line p msg) = false.
Proof. reflexivity. Qed.

Lemma fixed_line_fixed (p : string) : fixed_line ("Fixed: " +:+ p) = true.
Proof. unfold fixed_line. simpl. destruct p; reflexivity. Qed.

(** What one call of [process_file] can change. *)
Lemma process_file_frame (fixes : string -> text -> text) (w : World)
    (p : string) :
  dirs (fst (Driver.process_file fixes w p)) = dirs w /\
  dom (files (fst (Driver.process_file fixes w p))) = dom (files w) /\
  (forall q, q <> p ->
     files (fst (Driver.process_file fixes w p)) !! q = files w !! q) /\
  (forall f, files w !! p = Some f ->
     exists c', files (fst (Driver.process_file fixes w p)) !! p =
                Some (File c' (read_error f) (write_error f))) /\
  (exists new, stdout (fst (Driver.process_file fixes w p)) = new ++ stdout w /\
               count_fixed new = 0).
Proof.
  unfold Driver.process_file.
  assert (Hsame : forall line, fixed_line line = false ->
            dirs (print w line) = dirs w /\
            dom (files (print w line)) = dom (files w) /\
            (forall q, q <> p -> files (print w line) !! q = files w !! q) /\
            (forall f, files w !! p = Some f ->
               exists c', files (print w line) !! p =
                          Some (File c' (read_error f) (write_error f))) /\
            (exists new, stdout (print w line) = new ++ stdout w /\
                         count_fixed new = 0)).
  { intros line Hl. cbn [print dirs files stdout]. repeat split; auto.
    - intros f Hf. exists (contents f). rewrite Hf. destruct f; reflexivity.
    - exists [line]. split; [reflexivity |].
      unfold count_fixed. simpl. rewrite Hl. reflexivity. }
  assert (Hid : dirs w = dirs w /\ dom (files w) = dom (files w) /\
            (forall q, q <> p -> files w !! q = files w !! q) /\
            (forall f, files w !! p = Some f ->
               exists c', files w !! p =
                          Some (File c' (read_error f) (write_error f))) /\
            (exists new, stdout w = new ++ stdout w /\ count_fixed new = 0)).
  { repeat split; auto.
    - intros f Hf. exists (contents f). rewrite Hf. destruct f; reflexivity.
    - exists []. split; reflexivity. }
  destruct (read_text w p) as [c | e]; cbn [fst].
  - cbv zeta. destruct (negb (text_eqb (fixes p c) c)); [| exact Hid].
    destruct (write_text w p (fixes p c)) as [w' | e] eqn:W; cbn [fst].
    + destruct (write_text_frame _ _ _ _ W) as (A & B & C & D & (f & F & F')).
      repeat split; auto.
      * intros f0 Hf0. rewrite F in Hf0. injection Hf0 as <-. eauto.
      * exists []. rewrite C. split; reflexivity.
    + apply Hsame, fixed_line_error.
  - apply Hsame, fixed_line_error.
Qed.

(** What one loop of [main] can change, and what it counts. *)
Lemma for_files_frame (fixes : string -> text -> text) (paths : list string) :
  forall w n,
  dirs (fst (Driver.for_files fixes paths w n)) = dirs w /\
  dom (files (fst (Driver.for_files fixes paths w n))) = dom (files w) /\
  (forall q, ~ In q paths ->
     files (fst (Driver.for_files fixes paths w n)) !! q = files w !! q) /\
  (exists new,
     stdout (fst (Driver.for_files fixes paths w n)) = new ++ stdout w /\
     snd (Driver.for_files fixes paths w n) = n + count_fixed new).
Proof.
  induction paths as [|p rest IH]; intros w n.
  - cbn [Driver.for_files fst snd]. repeat split; auto.
    exists []. split; [reflexivity | unfold count_fixed; simpl; lia].
  - cbn [Driver.for_files].
    destruct (process_file_frame fixes w p) as (A & B & C & _ & (new1 & S1 & K1)).
    destruct (Driver.process_file fixes w p) as [w1 changed].
    cbn [fst] in A, B, C, S1.
    destruct changed.
    + destruct (IH (print w1 ("Fixed: " +:+ p)) (n + 1))
        as (A2 & B2 & C2 & (new2 & S2 & K2)).
      cbn [print dirs files stdout] in A2, B2, C2, S2.
      split; [congruence |]. split; [congruence |]. split.
      * intros q Hq. rewrite C2 by (intros Hin; apply Hq; right; exact Hin).
        apply C. intros ->. apply Hq. left. reflexivity.
      * exists (new2 ++ ("Fixed: " +:+ p) :: new1).
        rewrite S2, S1, K2, <- app_assoc. split; [reflexivity |].
        unfold count_fixed in *.
        rewrite List.filter_app, length_app. cbn [List.filter].
        rewrite fixed_line_fixed. cbn [length]. lia.
    + destruct (IH w1 n) as (A2 & B2 & C2 & (new2 & S2 & K2)).
      split; [congruence |]. split; [congruence |]. split.
      * intros q Hq. rewrite C2 by (intros Hin; apply Hq; right; exact Hin).
        apply C. intros ->. apply Hq. left. reflexivity.
      * exists (new2 ++ new1). rewrite S2, S1, K2, <- app_assoc.
        split; [reflexivity |].
        unfold count_fixed in *. rewrite List.filter_app, length_app. lia.
Qed.

Lemma rglob_selects (w : World) (d suffix q : string) :
  In q (rglob w d suffix) ->
  String.prefix (d +:+ "/") q = true /\ has_suffix suffix q = true.
Proof.
  unfold rglob. destruct (bool_decide (d ∈ dirs w)); [| intros []].
  intros H. apply filter_In in H as [_ H]. apply andb_true_iff in H. exact H.
Qed.

Lemma for_suffixes_frame (fixes : string -> text -> text) (d : string)
    (suffixes : list string) :
  forall w n,
  dirs (fst (Driver.for_suffixes fixes d suffixes w n)) = dirs w /\
  dom (files (fst (Driver.for_suffixes fixes d suffixes w n))) = dom (files w) /\
  (forall q,
     String.prefix (d +:+ "/") q = false \/
     forallb (fun suffix => negb (has_suffix suffix q)) suffixes = true ->
     files (fst (Driver.for_suffixes fixes d suffixes w n)) !! q = files w !! q) /\
  (exists new,
     stdout (fst (Driver.for_suffixes fixes d suffixes w n)) = new ++ stdout w /\
     snd (Driver.for_suffixes fixes d suffixes w n) = n + count_fixed new).
Proof.
  induction suffixes as [|suffix rest IH]; intros w n.
  - cbn [Driver.for_suffixes fst snd]. repeat split; auto.
    exists []. split; [reflexivity | unfold count_fixed; simpl; lia].
  - cbn [Driver.for_suffixes].
    destruct (for_files_frame fixes (rglob w d suffix) w n)
      as (A & B & C & (new1 & S1 & K1)).
    destruct (Driver.for_files fixes (rglob w d suffix) w n) as [w1 n1].
    cbn [fst snd] in A, B, C, S1, K1.
    destruct (IH w1 n1) as (A2 & B2 & C2 & (new2 & S2 & K2)).
    split; [congruence |]. split; [congruence |]. split.
    + intros q Hq. rewrite C2.
      * apply C. intros Hin. apply rglob_selects in Hin as [Hp Hs].
        destruct Hq as [Hq | Hq]; [congruence |].
        cbn [forallb] in Hq. apply andb_true_iff in Hq as [Hq _].
        rewrite Hs in Hq. discriminate.
      * destruct Hq as [Hq | Hq]; [left; exact Hq | right].
        cbn [forallb] in Hq. apply andb_true_iff in Hq as [_ Hq]. exact Hq.
    + exists (new2 ++ new1). rewrite S2, S1, K2, K1, <- app_assoc.
      split; [reflexivity |].
      unfold count_fixed. rewrite List.filter_app, length_app. lia.
Qed.

Lemma one_root_loops (fixes : string -> text -> text) (d : string)
    (suffixes : list string) (w : World) :
  loops_frame [d] suffixes w
    (fst (Driver.for_suffixes fixes d suffixes w 0))
    (snd (Driver.for_suffixes fixes d suffixes w 0)).
Proof.
  destruct (for_suffixes_frame fixes d suffixes w 0) as (A & B & C & D).
  unfold loops_frame. split; [exact A |]. split; [exact B |].
  split; [| exact D].
  intros q [Hq | Hq]; apply C.
  - left. cbn [forallb] in Hq. apply andb_true_iff in Hq as [Hq _].
    apply negb_true_iff in Hq. exact Hq.
  - right. exact Hq.
Qed.

Lemma comprehensive_loops (w : World) :
  exists w1 n1,
    Comprehensive.main w = Driver.report w1 n1 /\
    loops_frame ["src"; "e2e"]%string Comprehensive.suffixes w w1 n1.
Proof.
  unfold Comprehensive.main. cbv zeta. cbn [fold_left].
  set (fixes := fun filepath content => Comprehensive.fix_content content filepath).
  assert (Hstep : forall d w0 n0,
            let r := if path_exists w0 d
                     then Driver.for_suffixes fixes d Comprehensive.suffixes w0 n0
                     else (w0, n0) in
            dirs (fst r) = dirs w0 /\ dom (files (fst r)) = dom (files w0) /\
            (forall q,
               String.prefix (d +:+ "/") q = false \/
               forallb (fun suffix => negb (has_suffix suffix q))
                 Comprehensive.suffixes = true ->
               files (fst r) !! q = files w0 !! q) /\
            (exists new, stdout (fst r) = new ++ stdout w0 /\
                         snd r = n0 + count_fixed new)).
  { intros d w0 n0. cbv zeta. destruct (path_exists w0 d).
    - apply for_suffixes_frame.
    - cbn [fst snd]. repeat split; auto.
      exists []. split; [reflexivity | unfold count_fixed; simpl; lia]. }
  destruct (Hstep "src"%string w 0) as (A1 & B1 & C1 & (new1 & S1 & K1)).
  cbv zeta in A1, B1, C1, S1, K1.
  destruct (if path_exists w "src"
            then Driver.for_suffixes fixes "src" Comprehensive.suffixes w 0
            else (w, 0)) as [wa na].
  cbn [fst snd] in A1, B1, C1, S1, K1.
  destruct (Hstep "e2e"%string wa na) as (A2 & B2 & C2 & (new2 & S2 & K2)).
  cbv zeta in A2, B2, C2, S2, K2.
  destruct (if path_exists wa "e2e"
            then Driver.for_suffixes fixes "e2e" Comprehensive.suffixes wa na
            else (wa, na)) as [wb nb].
  cbn [fst snd] in A2, B2, C2, S2, K2.
  exists wb, nb. split; [reflexivity |].
  unfold loops_frame. split; [congruence |]. split; [congruence |]. split.
  - intros q Hq.
    assert (H1 : String.prefix ("src" +:+ "/") q = false \/
                 forallb (fun suffix => negb (has_suffix suffix q))
                   Comprehensive.suffixes = true).
    { destruct Hq as [Hq | Hq]; [left | right; exact Hq].
      cbn [forallb] in Hq. apply andb_true_iff in Hq as [Hq _].
      apply negb_true_iff in Hq. exact Hq. }
    assert (H2 : String.prefix ("e2e" +:+ "/") q = false \/
                 forallb (fun suffix => negb (has_suffix suffix q))
                   Comprehensive.suffixes = true).
    { destruct Hq as [Hq | Hq]; [left | right; exact Hq].
      cbn [forallb] in Hq. apply andb_true_iff in Hq as [_ Hq].
      apply andb_true_iff in Hq as [Hq _].
      apply negb_true_iff in Hq. exact Hq. }
    rewrite (C2 q H2). exact (C1 q H1).
  - exists (new2 ++ new1). rewrite S2, S1, K2, K1, <- app_assoc.
    split; [reflexivity |].
    unfold count_fixed. rewrite List.filter_app, length_app. lia.
Qed.

Lemma fix_file_frame (w : World) (p : string) :
  dirs (fst (FixTsErrors.fix_file w p)) = dirs w /\
  dom (files (fst (FixTsErrors.fix_file w p))) = dom (files w) /\
  stdout (fst (FixTsErrors.fix_file w p)) = stdout w /\
  (forall q, q <> p ->
     files (fst (FixTsErrors.fix_file w p)) !! q = files w !! q) /\
  (forall f, files w !! p = Some f ->
     exists c', files (fst (FixTsErrors.fix_file w p)) !! p =
                Some (File c' (read_error f) (write_error f))).
Proof.
  assert (Hid : dirs w = dirs w /\ dom (files w) = dom (files w) /\
            stdout w = stdout w /\
            (forall q, q <> p -> files w !! q = files w !! q) /\
            (forall f, files w !! p = Some f ->
               exists c', files w !! p =
                          Some (File c' (read_error f) (write_error f)))).
  { repeat split; auto.
    intros f Hf. exists (contents f). rewrite Hf. destruct f; reflexivity. }
  unfold FixTsErrors.fix_file.
  destruct (read_text w p) as [c | e]; cbn [fst]; [| exact Hid].
  cbv zeta.
  destruct (negb (text_eqb _ c)); [| exact Hid].
  destruct (write_text w p _) as [w' | e] eqn:W; cbn [fst]; [| exact Hid].
  destruct (write_text_frame _ _ _ _ W) as (A & B & C & D & (f & F & F')).
  repeat split; auto.
  intros f0 Hf0. rewrite F in Hf0. injection Hf0 as <-. eauto.
Qed.

(** X11. One call of the per-file function ([process_file] of four
    scripts, [fix_file] of fix_ts_errors) can change the text of its own
    file and nothing else on disk: every other path keeps its entry, no
    directory and no file appears or disappears, and the file keeps its
    read and write faults. *)
Theorem per_file_touches_one_file (fixes : string -> text -> text)
    (w : World) (p q : string) (f : file) :
  (q <> p ->
     files (fst (Driver.process_file fixes w p)) !! q = files w !! q /\
     files (fst (FixTsErrors.fix_file w p)) !! q = files w !! q) /\
  (files w !! p = Some f ->
     (exists c', files (fst (Driver.process_file fixes w p)) !! p =
                 Some (File c' (read_error f) (write_error f))) /\
     (exists c', files (fst (FixTsErrors.fix_file w p)) !! p =
                 Some (File c' (read_error f) (write_error f)))) /\
  dirs (fst (Driver.process_file fixes w p)) = dirs w /\
  dirs (fst (FixTsErrors.fix_file w p)) = dirs w /\
  dom (files (fst (Driver.process_file fixes w p))) = dom (files w) /\
  dom (files (fst (FixTsErrors.fix_file w p))) = dom (files w).
Proof.
  destruct (process_file_frame fixes w p) as (A & B & C & D & _).
  destruct (fix_file_frame w p) as (A' & B' & _ & C' & D').
  split; [intros Hq; split; [exact (C q Hq) | exact (C' q Hq)] |].
  split; [intros Hf; split; [exact (D f Hf) | exact (D' f Hf)] |].
  auto.
Qed.

Lemma per_file_touches_one_file_witness :
  "src/a.test.ts"%string <> "src/b.test.ts"%string /\
  files faulty_world !! "src/b.test.ts"%string =
    Some (File callback_text None None) /\
  files (fst (Comprehensive.process_file faulty_world "src/b.test.ts"))
    !! "src/a.test.ts"%string = files faulty_world !! "src/a.test.ts"%string /\
  exists c', files (fst (Comprehensive.process_file faulty_world "src/b.test.ts"))
               !! "src/b.test.ts"%string = Some (File c' None None).
Proof.
  assert (Hne : "src/a.test.ts"%string <> "src/b.test.ts"%string)
    by discriminate.
  assert (Hf : files faulty_world !! "src/b.test.ts"%string =
               Some (File callback_text None None))
    by (vm_compute; reflexivity).
  refine (conj Hne (conj Hf (conj _ _))).
  - exact (proj1 (proj1 (per_file_touches_one_file
                           (fun p x => Comprehensive.fix_content x p)
                           faulty_world "src/b.test.ts" "src/a.test.ts"
                           (File callback_text None None)) Hne)).
  - exact (proj1 (proj1 (proj2 (per_file_touches_one_file
                           (fun p x => Comprehensive.fix_content x p)
                           faulty_world "src/b.test.ts" "src/a.test.ts"
                           (File callback_text None None))) Hf)).
Defined.

(** X12. A run of [main] creates and deletes nothing, and leaves alone
    every file that is below none of its root directories or whose name
    ends in none of its suffixes ([src] and [e2e] with .test.ts, .spec.ts
    and .stories.ts for comprehensive_fix; [src] with .test.ts for
    final_push; [src] with .test.ts and .stories.ts for final_safe_fix and
    ultra_targeted_fix). *)
Theorem main_leaves_other_files (w : World) (q : string) :
  (outside ["src"; "e2e"]%string Comprehensive.suffixes q ->
     files (Comprehensive.main w) !! q = files w !! q) /\
  (outside ["src"]%string [".test.ts"]%string q ->
     files (FinalPush.main w) !! q = files w !! q) /\
  (outside ["src"]%string [".test.ts"; ".stories.ts"]%string q ->
     files (FinalSafe.main w) !! q = files w !! q /\
     files (UltraTargeted.main w) !! q = files w !! q) /\
  (dirs (Comprehensive.main w) = dirs w /\
   dom (files (Comprehensive.main w)) = dom (files w)) /\
  (dirs (FinalPush.main w) = dirs w /\
   dom (files (FinalPush.main w)) = dom (files w)) /\
  (dirs (FinalSafe.main w) = dirs w /\
   dom (files (FinalSafe.main w)) = dom (files w)) /\
  (dirs (UltraTargeted.main w) = dirs w /\
   dom (files (UltraTargeted.main w)) = dom (files w)).
Proof.
  destruct (comprehensive_loops w) as (wc & nc & Ec & Ac & Bc & Cc & _).
  pose proof (one_root_loops (fun _ content => FinalPush.final_fixes content)
                "src" [".test.ts"]%string w) as (Ap & Bp & Cp & _).
  pose proof (one_root_loops
                (fun filepath content => FinalSafe.safe_fixes content filepath)
                "src" [".test.ts"; ".stories.ts"]%string w) as (As & Bs & Cs & _).
  pose proof (one_root_loops
                (fun _ content => UltraTargeted.ultra_targeted_fixes content)
                "src" [".test.ts"; ".stories.ts"]%string w) as (Au & Bu & Cu & _).
  unfold FinalPush.main, FinalSafe.main, UltraTargeted.main. cbv zeta.
  rewrite Ec.
  destruct (Driver.for_suffixes (fun _ content => FinalPush.final_fixes content)
              "src" [".test.ts"]%string w 0) as [wp np].
  destruct (Driver.for_suffixes
              (fun filepath content => FinalSafe.safe_fixes content filepath)
              "src" [".test.ts"; ".stories.ts"]%string w 0) as [ws ns].
  destruct (Driver.for_suffixes
              (fun _ content => UltraTargeted.ultra_targeted_fixes content)
              "src" [".test.ts"; ".stories.ts"]%string w 0) as [wu nu].
  cbn [fst snd Driver.report print dirs files] in *.
  repeat split; auto.
Qed.

Lemma main_leaves_other_files_witness :
  outside ["src"; "e2e"]%string Comprehensive.suffixes "src/b.test.ts.orig" /\
  outside ["src"]%string [".test.ts"]%string "lib/b.test.ts" /\
  outside ["src"]%string [".test.ts"; ".stories.ts"]%string "src/b.spec.ts" /\
  files (Comprehensive.main faulty_world) !! "src/b.test.ts.orig"%string =
    files faulty_world !! "src/b.test.ts.orig"%string /\
  files (FinalPush.main faulty_world) !! "lib/b.test.ts"%string =
    files faulty_world !! "lib/b.test.ts"%string /\
  files (FinalSafe.main faulty_world) !! "src/b.spec.ts"%string =
    files faulty_world !! "src/b.spec.ts"%string.
Proof.
  assert (H1 : outside ["src"; "e2e"]%string Comprehensive.suffixes
                 "src/b.test.ts.orig") by (right; vm_compute; reflexivity).
  assert (H2 : outside ["src"]%string [".test.ts"]%string "lib/b.test.ts")
    by (left; vm_compute; reflexivity).
  assert (H3 : outside ["src"]%string [".test.ts"; ".stories.ts"]%string
                 "src/b.spec.ts") by (right; vm_compute; reflexivity).
  refine (conj H1 (conj H2 (conj H3 (conj _ (conj _ _))))).
  - exact (proj1 (main_leaves_other_files faulty_world _) H1).
  - exact (proj1 (proj2 (main_leaves_other_files faulty_world _)) H2).
  - exact (proj1 (proj1 (proj2 (proj2 (main_leaves_other_files faulty_world _)))
                   H3)).
Defined.

(** X13. The output of [main] is what was printed before, then the lines
    of the run, then the total; and the total is the number of "Fixed: "
    lines the run printed. *)
Theorem main_total_counts_fixed_lines (w : World) :
  (exists new, stdout (Comprehensive.main w) =
               total_line (count_fixed new) :: new ++ stdout w) /\
  (exists new, stdout (FinalPush.main w) =
               total_line (count_fixed new) :: new ++ stdout w) /\
  (exists new, stdout (FinalSafe.main w) =
               total_line (count_fixed new) :: new ++ stdout w) /\
  (exists new, stdout (UltraTargeted.main w) =
               total_line (count_fixed new) :: new ++ stdout w).
Proof.
  destruct (comprehensive_loops w) as (wc & nc & Ec & _ & _ & _ & (newc & Sc & Kc)).
  pose proof (one_root_loops (fun _ content => FinalPush.final_fixes content)
                "src" [".test.ts"]%string w) as (_ & _ & _ & (newp & Sp & Kp)).
  pose proof (one_root_loops
                (fun filepath content => FinalSafe.safe_fixes content filepath)
                "src" [".test.ts"; ".stories.ts"]%string w)
    as (_ & _ & _ & (news & Ss & Ks)).
  pose proof (one_root_loops
                (fun _ content => UltraTargeted.ultra_targeted_fixes content)
                "src" [".test.ts"; ".stories.ts"]%string w)
    as (_ & _ & _ & (newu & Su & Ku)).
  unfold FinalPush.main, FinalSafe.main, UltraTargeted.main. cbv zeta.
  rewrite Ec.
  destruct (Driver.for_suffixes (fun _ content => FinalPush.final_fixes content)
              "src" [".test.ts"]%string w 0) as [wp np].
  destruct (Driver.for_suffixes
              (fun filepath content => FinalSafe.safe_fixes content filepath)
              "src" [".test.ts"; ".stories.ts"]%string w 0) as [ws ns].
  destruct (Driver.for_suffixes
              (fun _ content => UltraTargeted.ultra_targeted_fixes content)
              "src" [".test.ts"; ".stories.ts"]%string w 0) as [wu nu].
  cbn [fst snd] in *. unfold Driver.report, total_line.
  cbn [print stdout]. subst nc np ns nu.
  rewrite Sc, Sp, Ss, Su.
  split; [exists newc; reflexivity |].
  split; [exists newp; reflexivity |].
  split; [exists news; reflexivity | exists newu; reflexivity].
Qed.

Lemma file_after_process (fixes : string -> text -> text) (w : World)
    (p : string) (c : text) :
  files w !! p = Some (File c None None) ->
  files (fst (Driver.process_file fixes w p)) !! p =
    Some (File (fixes p c) None None).
Proof.
  intros H. rewrite (process_file_ok fixes w p c H).
  destruct (text_eqb (fixes p c) c) eqn:E; cbn [fst].
  - apply text_eqb_eq in E. rewrite E. exact H.
  - unfold put_text. cbn [files]. apply lookup_insert_eq.
Qed.

(** X14. On a file that can be read and written, a second call of
    [process_file] right after the first returns False exactly when the
    transformation maps the text the first call left to itself; and the
    second call then leaves the world as the first left it. *)
Theorem second_run_reports (fixes : string -> text -> text) (w : World)
    (p : string) (c : text) :
  files w !! p = Some (File c None None) ->
  (snd (Driver.process_file fixes (fst (Driver.process_file fixes w p)) p) = false
   <-> fixes p (fixes p c) = fixes p c) /\
  (fixes p (fixes p c) = fixes p c ->
   fst (Driver.process_file fixes (fst (Driver.process_file fixes w p)) p) =
   fst (Driver.process_file fixes w p)).
Proof.
  intros H. pose proof (file_after_process fixes w p c H) as H1.
  pose proof (process_file_ok fixes _ p _ H1) as E. split.
  - rewrite E.
    destruct (text_eqb (fixes p (fixes p c)) (fixes p c)) eqn:T; cbn [snd].
    + apply text_eqb_eq in T. tauto.
    + split; [discriminate |]. intros X. apply text_eqb_eq in X. congruence.
  - intros X. rewrite E. apply text_eqb_eq in X. rewrite X. reflexivity.
Qed.

Lemma second_run_reports_witness :
  files (sample_world items_access) !! "src/a.test.ts"%string =
    Some (File items_access None None) /\
  Comprehensive.fix_content
    (Comprehensive.fix_content items_access "src/a.test.ts") "src/a.test.ts" =
  Comprehensive.fix_content items_access "src/a.test.ts" /\
  snd (Comprehensive.process_file
         (fst (Comprehensive.process_file (sample_world items_access)
                 "src/a.test.ts")) "src/a.test.ts") = false /\
  fst (Comprehensive.process_file
         (fst (Comprehensive.process_file (sample_world items_access)
                 "src/a.test.ts")) "src/a.test.ts") =
  fst (Comprehensive.process_file (sample_world items_access) "src/a.test.ts").
Proof.
  assert (H : files (sample_world items_access) !! "src/a.test.ts"%string =
              Some (File items_access None None)) by (vm_compute; reflexivity).
  assert (X : Comprehensive.fix_content
                (Comprehensive.fix_content items_access "src/a.test.ts")
                "src/a.test.ts" =
              Comprehensive.fix_content items_access "src/a.test.ts")
    by (vm_compute; reflexivity).
  pose proof (second_run_reports (fun p x => Comprehensive.fix_content x p)
                _ _ _ H) as [A B].
  exact (conj H (conj X (conj (proj2 A X) (B X)))).
Defined.

(** ** No file is visited twice *)

Lemma has_suffix_inv (suffix p : string) :
  has_suffix suffix p = true -> exists pre, txt p = pre ++ txt suffix.
Proof.
  unfold has_suffix. intros H. apply bool_decide_eq_true in H.
  exists (take (length (txt p) - length (txt suffix)) (txt p)).
  rewrite <- H at 2. symmetry. apply take_drop.
Qed.

Lemma suffixes_disjoint (suffix suffix' q : string) :
  In suffix Comprehensive.suffixes -> In suffix' Comprehensive.suffixes ->
  has_suffix suffix q = true -> has_suffix suffix' q = true ->
  suffix = suffix'.
Proof.
  intros Hs Hs' H H'.
  apply has_suffix_inv in H as [pre E]. apply has_suffix_inv in H' as [pre' E'].
  rewrite E in E'. apply (f_equal (@rev ascii)) in E'.
  rewrite !rev_app_distr in E'.
  simpl in Hs, Hs'.
  repeat (destruct Hs as [<- | Hs]); try contradiction;
    repeat (destruct Hs' as [<- | Hs']); try contradiction;
    try reflexivity; simpl in E'; discriminate.
Qed.

Lemma roots_disjoint (d d' q : string) :
  In d ["src"; "e2e"]%string -> In d' ["src"; "e2e"]%string ->
  String.prefix (d +:+ "/") q = true -> String.prefix (d' +:+ "/") q = true ->
  d = d'.
Proof.
  intros Hd Hd' H H'. simpl in Hd, Hd'.
  repeat (destruct Hd as [<- | Hd]); try contradiction;
    repeat (destruct Hd' as [<- | Hd']); try contradiction;
    try reflexivity;
    change ("src" +:+ "/") with "src/"%string in *;
    change ("e2e" +:+ "/") with "e2e/"%string in *;
    destruct q as [|a q]; cbn -[ascii_dec] in H, H'; try discriminate;
    destruct (ascii_dec "s" a), (ascii_dec "e" a); congruence.
Qed.

Lemma rglob_NoDup (w : World) (d suffix : string) :
  NoDup (rglob w d suffix).
Proof.
  unfold rglob. destruct (bool_decide (d ∈ dirs w)); [| constructor].
  apply NoDup_ListNoDup, List.NoDup_filter, NoDup_ListNoDup.
  exact (NoDup_fst_map_to_list (files w)).
Qed.

(** X15. In one run no file is visited twice.  A path found by the loop
    for one root directory and one suffix is found by the loop for no
    other root or suffix, whatever the earlier loops wrote, and each loop
    lists a path once.  (The roots and suffixes are those of
    comprehensive_fix, which contain those of the other scripts.) *)
Theorem no_file_visited_twice (w w' : World) (d d' suffix suffix' q : string) :
  In d ["src"; "e2e"]%string -> In d' ["src"; "e2e"]%string ->
  In suffix Comprehensive.suffixes -> In suffix' Comprehensive.suffixes ->
  In q (rglob w d suffix) -> In q (rglob w' d' suffix') ->
  d = d' /\ suffix = suffix' /\ NoDup (rglob w d suffix).
Proof.
  intros Hd Hd' Hs Hs' Hq Hq'.
  apply rglob_selects in Hq as [P S]. apply rglob_selects in Hq' as [P' S'].
  split; [exact (roots_disjoint d d' q Hd Hd' P P') |].
  split; [exact (suffixes_disjoint suffix suffix' q Hs Hs' S S') |].
  apply rglob_NoDup.
Qed.

Lemma no_file_visited_twice_witness :
  In "src"%string ["src"; "e2e"]%string /\
  In ".test.ts"%string Comprehensive.suffixes /\
  In "src/b.test.ts"%string (rglob faulty_world "src" ".test.ts") /\
  NoDup (rglob faulty_world "src" ".test.ts").
Proof.
  assert (Hd : In "src"%string ["src"; "e2e"]%string) by (left; reflexivity).
  assert (Hs : In ".test.ts"%string Comprehensive.suffixes)
    by (left; reflexivity).
  assert (Hq : In "src/b.test.ts"%string (rglob faulty_world "src" ".test.ts"))
    by (vm_compute; right; left; reflexivity).
  exact (conj Hd (conj Hs (conj Hq
           (proj2 (proj2 (no_file_visited_twice faulty_world faulty_world
                            _ _ _ _ _ Hd Hd Hs Hs Hq Hq)))))).
Defined.

(** ** When a script reports a change *)

Section Growing.

(** A measure of texts that adds up over concatenation, such as the length
    or the number of occurrences of one character. *)
Variable mu : text -> nat.
Hypothesis mu_app : forall a b, mu (a ++ b) = mu a + mu b.

Lemma mu_nil : mu [] = 0.
Proof. pose proof (mu_app [] []) as H. simpl in H. lia. Qed.





End Growing.











(** ** The run of fix_ts_errors *)

Lemma fix_ts_for_files_frame (paths : list string) :
  forall w n,
  dirs (fst (FixTsErrors.for_files paths w n)) = dirs w /\
  dom (files (fst (FixTsErrors.for_files paths w n))) = dom (files w) /\
  (forall q, ~ In q paths ->
     files (fst (FixTsErrors.for_files paths w n)) !! q = files w !! q) /\
  (exists new,
     stdout (fst (FixTsErrors.for_files paths w n)) = new ++ stdout w /\
     forallb fixed_line new = true /\
     (forall n', snd (FixTsErrors.for_files paths w n) = Ok n' ->
                 n' = n + length new)).
Proof.
  induction paths as [|p rest IH]; intros w n.
  - cbn [FixTsErrors.for_files fst snd]. repeat split; auto.
    exists []. repeat split; auto. intros n' H. injection H as <-. simpl. lia.
  - cbn [FixTsErrors.for_files].
    destruct (fix_file_frame w p) as (A & B & S & C & _).
    destruct (FixTsErrors.fix_file w p) as [w1 [[|] | e]];
      cbn [fst] in A, B, S, C.
    + destruct (IH (print w1 ("Fixed: " +:+ p)) (n + 1))
        as (A2 & B2 & C2 & (new2 & S2 & F2 & K2)).
      cbn [print dirs files stdout] in A2, B2, C2, S2.
      split; [congruence |]. split; [congruence |]. split.
      * intros q Hq. rewrite C2 by (intros Hin; apply Hq; right; exact Hin).
        apply C. intros ->. apply Hq. left. reflexivity.
      * exists (new2 ++ [("Fixed: " +:+ p)%string]).
        rewrite S2, S, <- app_assoc. split; [reflexivity |]. split.
        -- rewrite forallb_app, F2. cbn [forallb].
           rewrite fixed_line_fixed. reflexivity.
        -- intros n' Hn'. rewrite (K2 n' Hn'), length_app. simpl. lia.
    + destruct (IH w1 n) as (A2 & B2 & C2 & (new2 & S2 & F2 & K2)).
      split; [congruence |]. split; [congruence |]. split.
      * intros q Hq. rewrite C2 by (intros Hin; apply Hq; right; exact Hin).
        apply C. intros ->. apply Hq. left. reflexivity.
      * exists new2. rewrite S2, S. auto.
    + cbn [fst snd]. split; [exact A |]. split; [exact B |]. split.
      * intros q Hq. apply C. intros ->. apply Hq. left. reflexivity.
      * exists []. rewrite S. repeat split; auto. discriminate.
Qed.

(** X18. A run of [main] of fix_ts_errors creates and deletes nothing and
    leaves alone every file that is not below [src] or whose name ends in
    neither .test.ts nor .stories.ts, whether it ends normally or with an
    exception.  It prints only "Fixed: " lines before the end; when it
    ends normally the last line is the total, which is their number, and
    when it ends with an exception no total is printed. *)
Theorem fix_ts_main_frame (w : World) (q : string) :
  dirs (fst (FixTsErrors.main w)) = dirs w /\
  dom (files (fst (FixTsErrors.main w))) = dom (files w) /\
  (outside ["src"]%string [".test.ts"; ".stories.ts"]%string q ->
   files (fst (FixTsErrors.main w)) !! q = files w !! q) /\
  (exists new,
     forallb fixed_line new = true /\
     match snd (FixTsErrors.main w) with
     | Ok _ => stdout (fst (FixTsErrors.main w)) =
               total_line (length new) :: new ++ stdout w
     | Raise _ => stdout (fst (FixTsErrors.main w)) = new ++ stdout w
     end).
Proof.
  unfold FixTsErrors.main. cbv zeta.
  destruct (fix_ts_for_files_frame (rglob w "src" ".test.ts") w 0)
    as (A1 & B1 & C1 & (new1 & S1 & F1 & K1)).
  assert (O1 : outside ["src"]%string [".test.ts"; ".stories.ts"]%string q ->
               ~ In q (rglob w "src" ".test.ts")).
  { intros [Hq | Hq] Hin; apply rglob_selects in Hin as [P S].
    - cbn [forallb] in Hq. rewrite P in Hq. discriminate.
    - cbn [forallb] in Hq. rewrite S in Hq. discriminate. }
  destruct (FixTsErrors.for_files (rglob w "src" ".test.ts") w 0)
    as [w1 [n1 | e]]; cbn [fst snd] in *.
  - destruct (fix_ts_for_files_frame (rglob w1 "src" ".stories.ts") w1 n1)
      as (A2 & B2 & C2 & (new2 & S2 & F2 & K2)).
    assert (O2 : outside ["src"]%string [".test.ts"; ".stories.ts"]%string q ->
                 ~ In q (rglob w1 "src" ".stories.ts")).
    { intros [Hq | Hq] Hin; apply rglob_selects in Hin as [P S].
      - cbn [forallb] in Hq. rewrite P in Hq. discriminate.
      - cbn [forallb] in Hq. rewrite S, andb_false_r in Hq. discriminate. }
    destruct (FixTsErrors.for_files (rglob w1 "src" ".stories.ts") w1 n1)
      as [w2 [n2 | e]]; cbn [fst snd] in *.
    + unfold Driver.report. cbn [print dirs files stdout].
      split; [congruence |]. split; [congruence |]. split.
      * intros Hq. rewrite (C2 q (O2 Hq)). exact (C1 q (O1 Hq)).
      * exists (new2 ++ new1). split; [rewrite forallb_app, F2, F1; reflexivity |].
        unfold total_line.
        rewrite S2, S1, <- app_assoc, (K2 n2 eq_refl), (K1 n1 eq_refl),
          length_app.
        do 3 f_equal. lia.
    + split; [congruence |]. split; [congruence |]. split.
      * intros Hq. rewrite (C2 q (O2 Hq)). exact (C1 q (O1 Hq)).
      * exists (new2 ++ new1). split; [rewrite forallb_app, F2, F1; reflexivity |].
        rewrite S2, S1, <- app_assoc. reflexivity.
  - split; [exact A1 |]. split; [exact B1 |]. split.
    + intros Hq. exact (C1 q (O1 Hq)).
    + exists new1. auto.
Qed.

Lemma fix_ts_main_frame_witness :
  outside ["src"]%string [".test.ts"; ".stories.ts"]%string "src/b.spec.ts" /\
  files (fst (FixTsErrors.main faulty_world)) !! "src/b.spec.ts"%string =
    files faulty_world !! "src/b.spec.ts"%string.
Proof.
  assert (H : outside ["src"]%string [".test.ts"; ".stories.ts"]%string
                "src/b.spec.ts") by (right; vm_compute; reflexivity).
  exact (conj H (proj1 (proj2 (proj2 (fix_ts_main_frame faulty_world _))) H)).
Defined.

(** ** Errors in the four scripts with a handler *)


